(** * SimpleCache: a file-backed memoization cache

    Shallow embedding of [src/SimpleCache.py] (class [Cache]) and the
    properties of its cache engine: key derivation, the on-disk format,
    hit/miss bookkeeping, the size check before a write and the recency
    list.

    Conventions of the embedding:
    - Python [int] is [Z]; [bytes] is [list byte]; [str] is [string], read
      as the UTF-8 bytes of the text.
    - The cache directory is a finite map from the path of each entry to
      the bytes of that file; the size of an entry is the length of its
      bytes.
    - A method of [Cache] is a function from the world (the object's
      attributes and the directory) to an outcome and a new world.  The
      world is returned also when an exception is raised: whatever the
      method changed before raising stays changed, as in Python.
    - [logging] calls have no effect on the cache and are left out. *)

From Stdlib Require Import ZArith QArith Ascii String List.
From Stdlib.Strings Require Import Byte.
From stdpp Require Import base option list gmap strings fin_maps.

Local Open Scope Z_scope.
Local Open Scope string_scope.

(** ** Python values and exceptions *)

Module Py.

#[local] Set Warnings "-register-all".

(** The values that travel through the cache: arguments, argument tuples
    and return values. *)
Inductive pyval : Type :=
  | VNone
  | VInt (z : Z)
  | VStr (s : string)
  | VTuple (items : list pyval).

(** The exceptions the modelled code can raise.  [LibraryError] carries
    the name of an exception raised inside a wrapped function. *)
Inductive exn : Type :=
  | AttributeError (attr : string)
  | ValueError
  | ZeroDivisionError
  | FileNotFoundError
  | ZlibError
  | UnpicklingError
  | PicklingError
  | LibraryError (what : string).

Inductive outcome (A : Type) : Type :=
  | Ok (a : A)
  | Raise (e : exn).
Arguments Ok {A} a.
Arguments Raise {A} e.

(** A Python callable: its [__name__] and what a call with the given
    positional arguments returns or raises.  Wrapped functions are taken
    to be deterministic and not to touch the cache themselves. *)
Record pyfunc : Type := PyFunc {
  __name__ : string;
  body : list pyval -> outcome pyval
}.

End Py.
Import Py.

(** ** The libraries the cache calls

    [pickle], [zlib], [hashlib] and [os.path] are used through their
    documented behaviour only. *)

Definition hexchar (c : ascii) : Prop :=
  In c (list_ascii_of_string "0123456789abcdef").

(** A name made of hexadecimal digits: what [hexdigest()] returns. *)
Definition hexname (s : string) : Prop :=
  Forall hexchar (list_ascii_of_string s).

Class Platform : Type := {
  (** [pickle.dumps] and [pickle.loads] *)
  pickle_dumps : pyval -> outcome (list byte);
  pickle_loads : list byte -> outcome pyval;
  pickle_loads_dumps :
    forall v b, pickle_dumps v = Ok b -> pickle_loads b = Ok v;
  (** [zlib.compress] and [zlib.decompress] *)
  zlib_compress : list byte -> list byte;
  zlib_decompress : list byte -> outcome (list byte);
  zlib_decompress_compress :
    forall b, zlib_decompress (zlib_compress b) = Ok b;
  (** the digest of [self.algorithm], e.g. [hashlib.sha1(data).digest()] *)
  digest_size : nat;
  algorithm : list byte -> list byte;
  algorithm_length : forall data, length (algorithm data) = digest_size;
  (** [os.path.join] and [os.path.relpath] *)
  os_path_join : string -> string -> string;
  os_path_relpath : string -> string -> string;
  os_path_relpath_join_inj :
    forall dir a b start,
      hexname a -> hexname b -> String.length a = String.length b ->
      os_path_relpath (os_path_join dir a) start
      = os_path_relpath (os_path_join dir b) start ->
      a = b
}.

(** ** The world: a [Cache] object and its directory *)

Record World : Type := mkWorld {
  cacheDir : string;
  maxSize : Z;                      (* self.__maxSize *)
  evictionSize : Z;
  recentAccessed : list string;     (* self.__recentAccessed *)
  hits : Z;
  misses : Z;
  disk : gmap string (list byte);   (* the entries of the cache directory *)
  invocations : list (string * list pyval)
    (* every call made to a wrapped function: its name and the positional
       arguments it received, oldest first *)
}.

Definition set_maxSize_field (m : Z) (w : World) : World :=
  mkWorld (cacheDir w) m (evictionSize w) (recentAccessed w)
          (hits w) (misses w) (disk w) (invocations w).

Definition set_recentAccessed (l : list string) (w : World) : World :=
  mkWorld (cacheDir w) (maxSize w) (evictionSize w) l
          (hits w) (misses w) (disk w) (invocations w).

Definition set_disk (d : gmap string (list byte)) (w : World) : World :=
  mkWorld (cacheDir w) (maxSize w) (evictionSize w) (recentAccessed w)
          (hits w) (misses w) d (invocations w).

Definition log_invocation (c : string * list pyval) (w : World) : World :=
  mkWorld (cacheDir w) (maxSize w) (evictionSize w) (recentAccessed w)
          (hits w) (misses w) (disk w) (invocations w ++ [c]).

(** The fields a method leaves as they were. *)
Definition same_settings (w w' : World) : Prop :=
  hits w' = hits w /\ misses w' = misses w /\ cacheDir w' = cacheDir w
  /\ maxSize w' = maxSize w /\ evictionSize w' = evictionSize w.

(** ** Methods as state transformers that may raise *)

Definition M (A : Type) : Type := World -> outcome A * World.

Definition ret {A} (a : A) : M A := fun w => (Ok a, w).
Definition raise {A} (e : exn) : M A := fun w => (Raise e, w).
Definition bind {A B} (m : M A) (k : A -> M B) : M B :=
  fun w => match m w with
           | (Ok a, w') => k a w'
           | (Raise e, w') => (Raise e, w')
           end.
Definition lift {A} (o : outcome A) : M A := fun w => (o, w).
Definition gets {A} (f : World -> A) : M A := fun w => (Ok (f w), w).
Definition modify (f : World -> World) : M unit := fun w => (Ok tt, f w).

Notation "'let*' x ':=' m 'in' k" := (bind m (fun x => k))
  (at level 10, x name, m at level 100, k at level 200, only parsing).
Notation "m ';;' k" := (bind m (fun _ => k))
  (at level 100, k at level 200, right associativity, only parsing).

(** Calling a wrapped function records the call and yields its result. *)
Definition call (func : pyfunc) (positional : list pyval) : M pyval :=
  fun w => (body func positional,
            log_invocation (__name__ func, positional) w).

(** [bytes.hex()] of a digest: two lower-case hexadecimal digits a byte. *)
Definition hexdigit (n : N) : ascii :=
  match String.get (N.to_nat n) "0123456789abcdef" with
  | Some c => c
  | None => "0"%char
  end.

Fixpoint hexdigest (d : list byte) : string :=
  match d with
  | [] => EmptyString
  | b :: d' =>
      String (hexdigit (N.div (Byte.to_N b) 16))
        (String (hexdigit (N.modulo (Byte.to_N b) 16)) (hexdigest d'))
  end.

(** What [os.scandir] adds up: the size of every entry of the directory. *)
Definition dir_size (d : gmap string (list byte)) : Z :=
  map_fold (fun _ (content : list byte) total =>
              total + Z.of_nat (length content)) 0 d.

Section Cache.
Context {P : Platform}.

(** [Cache.__get_cache_size]: the sum of the sizes of the directory's
    entries. *)
Definition __get_cache_size : M Z :=
  gets (fun w => dir_size (disk w)).

(** [self.__evict]: the class defines no method of that name, so looking
    the attribute up raises [AttributeError] before any argument is
    evaluated. *)
Definition __evict (count : Z) : M unit :=
  raise (AttributeError "_Cache__evict").

(** [Cache.__handle_cache_size] *)
Definition __handle_cache_size : M unit :=
  let* cacheSize := __get_cache_size in
  let* limit := gets maxSize in
  if (cacheSize >? limit)%Z then
    let* n := gets evictionSize in
    __evict n
  else ret tt.

(** [Cache.__shift_node]: [list.index] raises [ValueError] when the node
    is absent; otherwise the node is popped and put in front. *)
Definition __shift_node (node : string) : M unit :=
  let* recent := gets recentAccessed in
  match list_find (fun n => n = node) recent with
  | None => raise ValueError
  | Some (index, popped) =>
      modify (set_recentAccessed (popped :: delete index recent))
  end.

(** [Cache.__build_file_name] *)
Definition __build_file_name (func : pyfunc) (args : list pyval) : M string :=
  let fname := __name__ func in
  let* pickled := lift (pickle_dumps (VTuple args)) in
  let fname := hexdigest (algorithm (list_byte_of_string fname ++ pickled)) in
  let* dir := gets cacheDir in
  ret (os_path_join dir fname).

(** [Cache.__read_cache] *)
Definition __read_cache (fileName : string) : M pyval :=
  let* files := gets disk in
  match files !! fileName with
  | None => raise FileNotFoundError
  | Some raw =>
      let* content := lift (zlib_decompress raw) in
      let* variables := lift (pickle_loads content) in
      let node := os_path_relpath fileName "cache" in
      __shift_node node ;;
      ret variables
  end.

(** [Cache.__write_cache]: [open(fileName, "wb")] creates or truncates the
    file before the value is pickled. *)
Definition __write_cache (fileName : string) (returnVal : pyval) : M unit :=
  __handle_cache_size ;;
  modify (fun w => set_disk (<[fileName := []]> (disk w)) w) ;;
  let* packed := lift (pickle_dumps returnVal) in
  let compressed := zlib_compress packed in
  modify (fun w => set_disk (<[fileName := compressed]> (disk w)) w) ;;
  let node := os_path_relpath fileName "cache" in
  modify (fun w => set_recentAccessed (node :: recentAccessed w) w).

(** [os.path.isfile] on a path of the cache directory. *)
Definition os_path_isfile (fileName : string) : M bool :=
  gets (fun w => bool_decide (is_Some (disk w !! fileName))).

(** The [wrapper] that [Cache.cache_function] returns for [func]. *)
Definition wrapper (func : pyfunc) (args : list pyval) : M pyval :=
  let* fileName := __build_file_name func args in
  let* cached := os_path_isfile fileName in
  if cached then __read_cache fileName
  else
    let* returnVal :=
      (if (0 <? Z.of_nat (length args))%Z then call func [VTuple args]
       else call func []) in
    __write_cache fileName returnVal ;;
    ret returnVal.

(** [Cache.cache_function]: the decorator returns the wrapper. *)
Definition cache_function (func : pyfunc) : list pyval -> M pyval :=
  wrapper func.

(** [Cache.clear]: [shutil.rmtree] then [os.mkdir]. *)
Definition clear : M unit :=
  modify (set_disk ∅).

(** [Cache.set_maxSize] *)
Definition set_maxSize (m : Z) : M unit :=
  modify (set_maxSize_field m) ;;
  __handle_cache_size.

(** The dictionary [get_info] returns.  [filled] is the exact quotient;
    Python rounds it to a float. *)
Record Info : Type := mkInfo {
  info_hits : Z;
  info_misses : Z;
  info_bytes : Z;
  info_items : Z;
  info_filled : Q
}.

(** Python's [/] on two [int]s. *)
Definition truediv (a b : Z) : M Q :=
  if (b =? 0)%Z then raise ZeroDivisionError
  else ret (Qdiv (inject_Z a) (inject_Z b)).

(** [Cache.get_info] *)
Definition get_info : M Info :=
  let* h := gets hits in
  let* m := gets misses in
  let* cacheSizeBytes := __get_cache_size in
  let* cacheSize := gets (fun w => Z.of_nat (length (recentAccessed w))) in
  let* limit := gets maxSize in
  let* filled := truediv cacheSizeBytes limit in
  ret (mkInfo h m cacheSizeBytes cacheSize filled).

(** [Cache.__init__], run over the directory as it is found. *)
Definition __init__ (dir : string) (limit eviction : Z) (startEmpty : bool)
    (found : gmap string (list byte)) : World :=
  let w := mkWorld dir limit eviction [] 0 0 found [] in
  if startEmpty then snd (clear w) else w.

(** ** Sequences of public operations

    What a client can do with a store: call a wrapped function, clear the
    store, change the budget, ask for the statistics.  A client may catch
    an exception and go on, so a run continues from the world an operation
    leaves, whether or not it raised. *)
Inductive operation : Type :=
  | Call (func : pyfunc) (args : list pyval)
  | Clear
  | SetMaxSize (m : Z)
  | GetInfo.

Definition perform (o : operation) (w : World) : World :=
  match o with
  | Call func args => snd (wrapper func args w)
  | Clear => snd (clear w)
  | SetMaxSize m => snd (set_maxSize m w)
  | GetInfo => snd (get_info w)
  end.

Definition run (ops : list operation) (w : World) : World :=
  fold_left (fun w o => perform o w) ops w.

(** The key of a call: the path [__build_file_name] derives for it. *)
Definition key_of (func : pyfunc) (args : list pyval) (w : World)
  : outcome string :=
  fst (__build_file_name func args w).

(** The positional arguments [wrapper] hands to the wrapped function on a
    miss: [func(args)] for a non-empty tuple, [func()] for the empty one. *)
Definition passed (args : list pyval) : list pyval :=
  if (0 <? Z.of_nat (length args))%Z then [VTuple args] else [].

(** C3 as the specification states it: on a miss the wrapped function
    receives the caller's arguments as they were passed, and the wrapper
    returns what the function returns for them. *)
Definition preserves_arity (func : pyfunc) (args : list pyval) (w : World)
  : Prop :=
  forall fileName,
    key_of func args w = Ok fileName ->
    disk w !! fileName = None ->
    invocations (snd (wrapper func args w))
    = (invocations w ++ [(__name__ func, args)])%list
    /\ fst (wrapper func args w) = body func args.

(** The node under which the recency list tracks a cache file. *)
Definition node_of (fileName : string) : string :=
  os_path_relpath fileName "cache".

(** ** The recency list and the live files *)

(** A path this store derives: the directory joined with a digest in
    hexadecimal. *)
Definition derived (dir fileName : string) : Prop :=
  exists digest,
    fileName = os_path_join dir digest /\ hexname digest
    /\ String.length digest = (2 * digest_size)%nat.

(** Every file of the directory was written by this store. *)
Definition owned (w : World) : Prop :=
  forall fileName, is_Some (disk w !! fileName) -> derived (cacheDir w) fileName.

(** The nodes of the files now in the directory. *)
Definition live_nodes (w : World) : list string :=
  node_of <$> (map_to_list (disk w)).*1.

(** The list holds exactly one entry for each live file and nothing twice. *)
Definition tracks_live_files (w : World) : Prop :=
  NoDup (recentAccessed w) /\ recentAccessed w ≡ₚ live_nodes w.

(** The invariant of a store that started over an empty directory. *)
Definition recency_invariant (w : World) : Prop :=
  tracks_live_files w /\ owned w.

(** A wrapped function all of whose results pickle. *)
Definition pickles_results (func : pyfunc) : Prop :=
  forall positional v,
    body func positional = Ok v -> exists packed, pickle_dumps v = Ok packed.

(** The operations of a run without [clear] in which every stored value
    pickles. *)
Definition stores_and_lookups (o : operation) : Prop :=
  match o with
  | Call func _ => pickles_results func
  | Clear => False
  | SetMaxSize _ | GetInfo => True
  end.

(** The node an operation reads or writes: that of the call's key, when the
    call completes. *)
Definition accessed (o : operation) (w : World) : option string :=
  match o with
  | Call func args =>
      match fst (wrapper func args w), key_of func args w with
      | Ok _, Ok fileName => Some (node_of fileName)
      | _, _ => None
      end
  | _ => None
  end.

(** The node most recently read or written in a run, if any. *)
Fixpoint last_accessed (ops : list operation) (w : World)
    (before : option string) : option string :=
  match ops with
  | [] => before
  | o :: ops' =>
      last_accessed ops' (perform o w)
        (match accessed o w with
         | Some node => Some node
         | None => before
         end)
  end.

(** What an operation does to the recency list: a completed call moves its
    node to the head and keeps the order of the others; anything else
    leaves the list alone. *)
Definition moves_to_head (o : operation) (w : World) : Prop :=
  recentAccessed (perform o w) =
    match accessed o w with
    | Some node =>
        node :: filter (fun n => n <> node) (recentAccessed w)
    | None => recentAccessed w
    end.

(** ** Runs that keep the budget *)

(** Operations that never assign the budget or empty the directory. *)
Definition keeps_budget (o : operation) : Prop :=
  match o with
  | Call _ _ | GetInfo => True
  | Clear | SetMaxSize _ => False
  end.

(** Every result of the wrapped function that pickles takes at most
    [bound] bytes once compressed. *)
Definition entries_within (bound : Z) (func : pyfunc) : Prop :=
  forall positional v packed,
    body func positional = Ok v ->
    pickle_dumps v = Ok packed ->
    Z.of_nat (length (zlib_compress packed)) <= bound.

(** The operations of a run with a fixed budget whose stored entries take
    at most [bound] bytes each. *)
Definition stores_within (bound : Z) (o : operation) : Prop :=
  match o with
  | Call func _ => entries_within bound func
  | SetMaxSize _ => False
  | Clear | GetInfo => True
  end.

(** The operations other than [clear]. *)
Definition never_clears (o : operation) : Prop :=
  match o with
  | Clear => False
  | _ => True
  end.

End Cache.

(** ** A small platform

    A concrete instance of [Platform], on which the methods run: integers
    below 256 and flat tuples of them pickle to tagged bytes, compression
    prepends a header byte, the digest is the one-byte sum of the data and
    paths are joined with a slash. *)

Module Sample.

Definition byte_of_N (n : N) : byte :=
  match Byte.of_N n with
  | Some b => b
  | None => x00
  end.

Definition small_int (v : pyval) : option byte :=
  match v with
  | VInt z => if ((0 <=? z) && (z <? 256))%Z then Byte.of_N (Z.to_N z) else None
  | _ => None
  end.

Definition int_of_byte (b : byte) : pyval := VInt (Z.of_N (Byte.to_N b)).

Definition dumps (v : pyval) : outcome (list byte) :=
  match v with
  | VInt _ =>
      match small_int v with
      | Some b => Ok [x49; b]
      | None => Raise PicklingError
      end
  | VTuple items =>
      match mapM small_int items with
      | Some bs => Ok (x54 :: bs)
      | None => Raise PicklingError
      end
  | _ => Raise PicklingError
  end.

Definition loads (data : list byte) : outcome pyval :=
  match data with
  | [x49; b] => Ok (int_of_byte b)
  | x54 :: bs => Ok (VTuple (int_of_byte <$> bs))
  | _ => Raise UnpicklingError
  end.

Definition compress (data : list byte) : list byte := x78 :: data.

Definition decompress (data : list byte) : outcome (list byte) :=
  match data with
  | x78 :: rest => Ok rest
  | _ => Raise ZlibError
  end.

Definition checksum (data : list byte) : list byte :=
  [byte_of_N (N.modulo (fold_right (fun b acc => Byte.to_N b + acc)%N 0%N data) 256)].

Definition join (dir name : string) : string := dir +:+ "/" +:+ name.

Fixpoint strip_prefix (pre s : string) : option string :=
  match pre, s with
  | EmptyString, _ => Some s
  | String a pre', String b s' =>
      if Ascii.eqb a b then strip_prefix pre' s' else None
  | String _ _, EmptyString => None
  end.

Definition relpath (path start : string) : string :=
  match strip_prefix (start +:+ "/") path with
  | Some rest => rest
  | None => "../" +:+ path
  end.

Lemma small_int_inv v b : small_int v = Some b -> int_of_byte b = v.
Proof.
  destruct v as [|z| |]; simpl; try discriminate.
  destruct ((0 <=? z) && (z <? 256))%Z eqn:Hz; [|discriminate].
  intros Hb. apply Byte.to_of_N in Hb. unfold int_of_byte.
  rewrite Hb. f_equal. apply andb_prop in Hz as [Hz _]. lia.
Qed.

Lemma mapM_small_int_inv items bs :
  mapM small_int items = Some bs -> int_of_byte <$> bs = items.
Proof.
  revert bs. induction items as [|v items IH]; intros bs; simpl.
  - intros [= <-]. reflexivity.
  - destruct (small_int v) as [b|] eqn:Hv; simpl; [|discriminate].
    destruct (mapM small_int items) as [bs'|]; simpl; [|discriminate].
    intros [= <-]. simpl. f_equal; [by apply small_int_inv | by apply IH].
Qed.

Lemma loads_dumps v b : dumps v = Ok b -> loads b = Ok v.
Proof.
  destruct v as [|z|s|items]; simpl; try discriminate.
  - destruct ((0 <=? z) && (z <? 256))%Z eqn:Hz; [|discriminate].
    destruct (Byte.of_N (Z.to_N z)) as [c|] eqn:Hc; [|discriminate].
    intros [= <-]. simpl. f_equal.
    apply (small_int_inv (VInt z)). simpl. by rewrite Hz.
  - destruct (mapM small_int items) as [bs|] eqn:Hbs; [|discriminate].
    intros [= <-]. simpl. f_equal. f_equal. by apply mapM_small_int_inv.
Qed.

Lemma decompress_compress b : decompress (compress b) = Ok b.
Proof. reflexivity. Qed.

Lemma checksum_length data : length (checksum data) = 1%nat.
Proof. reflexivity. Qed.

Lemma strip_prefix_Some pre s rest :
  strip_prefix pre s = Some rest -> s = pre +:+ rest.
Proof.
  revert s. induction pre as [|a pre IH]; intros s; simpl.
  - by intros [= ->].
  - destruct s as [|b s]; [discriminate|].
    destruct (Ascii.eqb_spec a b) as [->|]; [|discriminate].
    intros Hs. apply IH in Hs. subst s. reflexivity.
Qed.

Lemma length_append (s t : string) :
  String.length (s +:+ t) = (String.length s + String.length t)%nat.
Proof.
  induction s as [|c s IH]; [reflexivity|].
  change (S (String.length (s +:+ t)) = S (String.length s + String.length t)).
  by rewrite IH.
Qed.

Lemma relpath_join_inj dir a b start :
  hexname a -> hexname b -> String.length a = String.length b ->
  relpath (join dir a) start = relpath (join dir b) start -> a = b.
Proof.
  intros _ _ Hlen. unfold relpath, join.
  assert (Hsame : String.length (dir +:+ "/" +:+ a)
                  = String.length (dir +:+ "/" +:+ b)).
  { rewrite !length_append. simpl. lia. }
  destruct (strip_prefix _ (dir +:+ "/" +:+ a)) as [ra|] eqn:Ha;
    destruct (strip_prefix _ (dir +:+ "/" +:+ b)) as [rb|] eqn:Hb; intros Heq.
  - apply strip_prefix_Some in Ha, Hb. subst rb. rewrite <-Hb in Ha.
    by do 2 apply String.app_inj in Ha.
  - apply strip_prefix_Some in Ha. subst ra. rewrite Ha in Hsame.
    rewrite !length_append in Hsame. simpl in Hsame. lia.
  - apply strip_prefix_Some in Hb. subst rb. rewrite Hb in Hsame.
    rewrite !length_append in Hsame. simpl in Hsame. lia.
  - apply String.app_inj in Heq. by do 2 apply String.app_inj in Heq.
Qed.

#[export] Instance platform : Platform := {|
  pickle_dumps := dumps;
  pickle_loads := loads;
  pickle_loads_dumps := loads_dumps;
  zlib_compress := compress;
  zlib_decompress := decompress;
  zlib_decompress_compress := decompress_compress;
  digest_size := 1;
  algorithm := checksum;
  algorithm_length := checksum_length;
  os_path_join := join;
  os_path_relpath := relpath;
  os_path_relpath_join_inj := relpath_join_inj
|}.

(** A wrapped function of one parameter, written for this cache: it
    takes the argument tuple and returns its first item plus one, modulo
    256. *)
Definition succ_first : pyfunc :=
  PyFunc "succ_first" (fun positional =>
    match positional with
    | [VTuple (VInt z :: _)] => Ok (VInt ((z + 1) mod 256))
    | _ => Raise (LibraryError "TypeError")
    end).

(** A function of two parameters, [def add(a, b): return a + b]. *)
Definition add : pyfunc :=
  PyFunc "add" (fun positional =>
    match positional with
    | [VInt a; VInt b] => Ok (VInt (a + b))
    | _ => Raise (LibraryError "TypeError")
    end).

(** [Cache()] over an empty directory, with the default budget. *)
Definition fresh : World := __init__ "cache" 1000000 1 false ∅.

(** [Cache(maxSize=2)] after one stored result: three bytes on disk. *)
Definition full : World :=
  run [Call succ_first [VInt 1]] (__init__ "cache" 2 1 false ∅).

(** A store with one tracked entry. *)
Definition used : World := run [Call succ_first [VInt 1]] fresh.

(** A second [Cache()] over the directory the first one left behind. *)
Definition reopened : World := __init__ "cache" 1000000 1 false (disk used).

(** The store [used] after garbage was written into its entry's file. *)
Definition corrupted : World :=
  set_disk (<["cache/8a" := [x00; x01]]> (disk used)) used.

End Sample.

Module MoreSamples.
Import Sample.

(** A function whose result the small platform does not pickle. *)
Definition thousand : pyfunc :=
  PyFunc "thousand" (fun _ => Ok (VInt 1000)).

(** A function that always raises. *)
Definition failing : pyfunc :=
  PyFunc "failing" (fun _ => Raise (LibraryError "RuntimeError")).

(** Another function that goes by the name of [succ_first]. *)
Definition impostor : pyfunc :=
  PyFunc "succ_first" (fun _ => Ok (VInt 0)).

(** A store with two tracked entries, the second the more recent. *)
Definition two_entries : World :=
  run [Call succ_first [VInt 1]; Call succ_first [VInt 2]] fresh.

End MoreSamples.

(** * Properties *)

Section Properties.
Context {P : Platform}.

(** ** What each method computes *)

Lemma handle_cache_size_eq w :
  __handle_cache_size w =
    if (dir_size (disk w) >? maxSize w)%Z
    then (Raise (AttributeError "_Cache__evict"), w)
    else (Ok tt, w).
Proof.
  unfold __handle_cache_size, __get_cache_size, __evict, bind, gets, raise, ret.
  by destruct (dir_size (disk w) >? maxSize w)%Z.
Qed.

Lemma build_file_name_eq func args w :
  __build_file_name func args w =
    (match pickle_dumps (VTuple args) with
     | Ok pickled =>
         Ok (os_path_join (cacheDir w)
               (hexdigest (algorithm
                  (list_byte_of_string (__name__ func) ++ pickled))))
     | Raise e => Raise e
     end, w).
Proof.
  unfold __build_file_name, bind, lift, gets, ret.
  by destruct (pickle_dumps (VTuple args)).
Qed.

Lemma shift_node_eq node w :
  __shift_node node w =
    match list_find (fun n => n = node) (recentAccessed w) with
    | None => (Raise ValueError, w)
    | Some (index, popped) =>
        (Ok tt, set_recentAccessed
                  (popped :: delete index (recentAccessed w)) w)
    end.
Proof.
  unfold __shift_node, bind, gets, raise, modify.
  by destruct (list_find _ _) as [[? ?]|].
Qed.

Lemma read_cache_eq fileName w :
  __read_cache fileName w =
    match disk w !! fileName with
    | None => (Raise FileNotFoundError, w)
    | Some raw =>
        match zlib_decompress raw with
        | Raise e => (Raise e, w)
        | Ok content =>
            match pickle_loads content with
            | Raise e => (Raise e, w)
            | Ok variables =>
                match __shift_node (node_of fileName) w with
                | (Ok _, w') => (Ok variables, w')
                | (Raise e, w') => (Raise e, w')
                end
            end
        end
    end.
Proof.
  unfold __read_cache, node_of, bind, gets, raise, lift, ret.
  destruct (disk w !! fileName) as [raw|]; [|done].
  destruct (zlib_decompress raw) as [content|]; [|done].
  by destruct (pickle_loads content).
Qed.

Lemma write_cache_eq fileName returnVal w :
  __write_cache fileName returnVal w =
    if (dir_size (disk w) >? maxSize w)%Z
    then (Raise (AttributeError "_Cache__evict"), w)
    else
      match pickle_dumps returnVal with
      | Raise e => (Raise e, set_disk (<[fileName := []]> (disk w)) w)
      | Ok packed =>
          (Ok tt,
           mkWorld (cacheDir w) (maxSize w) (evictionSize w)
             (node_of fileName :: recentAccessed w) (hits w) (misses w)
             (<[fileName := zlib_compress packed]> (disk w))
             (invocations w))
      end.
Proof.
  unfold __write_cache, bind. rewrite handle_cache_size_eq.
  destruct (dir_size (disk w) >? maxSize w)%Z; [done|].
  unfold modify, lift, node_of, set_disk, set_recentAccessed. simpl.
  destruct (pickle_dumps returnVal) as [packed|]; [|done].
  by rewrite insert_insert_eq.
Qed.

Lemma wrapper_eq func args w :
  wrapper func args w =
    match key_of func args w with
    | Raise e => (Raise e, w)
    | Ok fileName =>
        if bool_decide (is_Some (disk w !! fileName))
        then __read_cache fileName w
        else
          let w1 := log_invocation (__name__ func, passed args) w in
          match body func (passed args) with
          | Raise e => (Raise e, w1)
          | Ok returnVal =>
              match __write_cache fileName returnVal w1 with
              | (Ok _, w2) => (Ok returnVal, w2)
              | (Raise e, w2) => (Raise e, w2)
              end
          end
    end.
Proof.
  unfold wrapper, key_of, bind at 1. rewrite build_file_name_eq. simpl.
  destruct (pickle_dumps (VTuple args)) as [pickled|]; [|done].
  unfold bind at 1, os_path_isfile, gets at 1.
  case_bool_decide; [done|].
  unfold bind at 1, passed.
  destruct (0 <? Z.of_nat (length args))%Z; unfold call;
    (destruct (body func _); [|done]);
    unfold bind, ret; by destruct (__write_cache _ _ _) as [[[]|] ?].
Qed.

(** ** Fields no method assigns *)

Lemma read_cache_frame fileName w :
  same_settings w (snd (__read_cache fileName w))
  /\ disk (snd (__read_cache fileName w)) = disk w.
Proof.
  rewrite read_cache_eq, shift_node_eq. unfold same_settings.
  destruct (disk w !! fileName) as [raw|]; [|done].
  destruct (zlib_decompress raw) as [content|]; [|done].
  destruct (pickle_loads content) as [v|]; [|done].
  by destruct (list_find _ _) as [[? ?]|].
Qed.

Lemma write_cache_frame fileName v w :
  same_settings w (snd (__write_cache fileName v w)).
Proof.
  rewrite write_cache_eq. unfold same_settings.
  destruct (dir_size (disk w) >? maxSize w)%Z; [done|].
  by destruct (pickle_dumps v).
Qed.

Lemma wrapper_frame func args w :
  same_settings w (snd (wrapper func args w)).
Proof.
  rewrite wrapper_eq. destruct (key_of func args w) as [fileName|]; [|done].
  case_bool_decide.
  - apply read_cache_frame.
  - simpl. destruct (body func (passed args)) as [v|]; [|done].
    pose proof (write_cache_frame fileName v
                  (log_invocation (__name__ func, passed args) w)) as Hw.
    by destruct (__write_cache _ _ _) as [[[]|] w2].
Qed.

Lemma perform_counters o w :
  hits (perform o w) = hits w /\ misses (perform o w) = misses w.
Proof.
  destruct o as [func args| |m|]; simpl.
  - destruct (wrapper_frame func args w) as (? & ? & _). done.
  - done.
  - unfold set_maxSize, bind, modify. rewrite handle_cache_size_eq.
    by destruct (_ >? _)%Z.
  - unfold get_info, truediv, bind, gets, __get_cache_size, raise, ret. simpl.
    by destruct (maxSize w =? 0)%Z.
Qed.

Lemma run_counters ops w :
  hits (run ops w) = hits w /\ misses (run ops w) = misses w.
Proof.
  revert w. induction ops as [|o ops IH]; intros w; [done|].
  simpl. destruct (IH (perform o w)) as [-> ->]. apply perform_counters.
Qed.

Lemma init_counters dir limit eviction startEmpty found :
  let w := __init__ dir limit eviction startEmpty found in
  hits w = 0 /\ misses w = 0 /\ recentAccessed w = [] /\ invocations w = []
  /\ cacheDir w = dir /\ maxSize w = limit
  /\ disk w = (if startEmpty then ∅ else found).
Proof. by destruct startEmpty. Qed.

(** ** C1: hit/miss accounting *)

(** C1.  No method assigns [hits] or [misses] after [__init__] sets them to
    zero: after any calls of a wrapped function with arguments [calls]
    followed by the same calls again, both counters are still zero,
    however many of the lookups found a live entry. *)
Theorem counters_stay_zero dir limit eviction startEmpty found func
    (calls : list (list pyval)) :
  let w := run ((Call func <$> calls) ++ (Call func <$> calls))
               (__init__ dir limit eviction startEmpty found) in
  hits w = 0 /\ misses w = 0
  /\ forall info, fst (get_info w) = Ok info ->
       info_hits info = 0 /\ info_misses info = 0.
Proof.
  intros w.
  destruct (run_counters ((Call func <$> calls) ++ (Call func <$> calls))
              (__init__ dir limit eviction startEmpty found)) as [Hh Hm].
  destruct (init_counters dir limit eviction startEmpty found)
    as (Hh0 & Hm0 & _).
  fold w in Hh, Hm. rewrite Hh0 in Hh. rewrite Hm0 in Hm.
  split; [done|]. split; [done|].
  intros info. unfold get_info, truediv, bind, gets, __get_cache_size, raise, ret.
  simpl. destruct (maxSize w =? 0)%Z; simpl; [done|]. by intros [= <-].
Qed.

(** ** C2: the size check before a write *)

(** C2.  Whenever the directory is larger than the budget, the size check
    reaches [self.__evict], which the class does not define: the check and
    the write that called it raise [AttributeError], no entry is removed
    and nothing is written. *)
Theorem over_budget_store_raises w fileName returnVal :
  dir_size (disk w) > maxSize w ->
  __handle_cache_size w = (Raise (AttributeError "_Cache__evict"), w)
  /\ __write_cache fileName returnVal w
     = (Raise (AttributeError "_Cache__evict"), w).
Proof.
  intros Hover. rewrite write_cache_eq, handle_cache_size_eq.
  assert ((dir_size (disk w) >? maxSize w)%Z = true) as -> by lia.
  done.
Qed.

(** ** C10: the fill ratio divides by the budget *)

Lemma get_info_eq w :
  get_info w =
    if (maxSize w =? 0)%Z then (Raise ZeroDivisionError, w)
    else (Ok (mkInfo (hits w) (misses w) (dir_size (disk w))
                (Z.of_nat (length (recentAccessed w)))
                (Qdiv (inject_Z (dir_size (disk w))) (inject_Z (maxSize w)))),
          w).
Proof.
  unfold get_info, truediv, bind, gets, __get_cache_size, raise, ret. simpl.
  by destruct (maxSize w =? 0)%Z.
Qed.

(** C10.  [get_info] returns its record exactly when the budget is not
    zero.  With a zero budget, whether given to the constructor or set
    later through [set_maxSize], the division raises [ZeroDivisionError]
    and no record is returned. *)
Theorem get_info_zero_budget :
  (forall w, maxSize w = 0 -> get_info w = (Raise ZeroDivisionError, w))
  /\ (forall w, maxSize w <> 0 -> exists info, get_info w = (Ok info, w))
  /\ (forall dir eviction startEmpty found,
        fst (get_info (__init__ dir 0 eviction startEmpty found))
        = Raise ZeroDivisionError)
  /\ (forall w, fst (get_info (snd (set_maxSize 0 w)))
               = Raise ZeroDivisionError).
Proof.
  repeat split.
  - intros w Hz. rewrite get_info_eq, Hz. done.
  - intros w Hnz. rewrite get_info_eq.
    destruct (Z.eqb_spec (maxSize w) 0) as [?|_]; [done|]. eauto.
  - intros dir eviction startEmpty found. rewrite get_info_eq.
    by destruct startEmpty.
  - intros w. rewrite get_info_eq.
    unfold set_maxSize, bind, modify. rewrite handle_cache_size_eq. simpl.
    by destruct (_ >? _)%Z.
Qed.

(** ** C4: clear, then the statistics *)

(** C4.  [clear] empties the directory and assigns nothing else, so a
    [get_info] right after it reports zero bytes and the counters as they
    were, but as item count the length of the recency list from before the
    clear, which is not zero once something was stored. *)
Theorem clear_then_get_info w :
  maxSize w <> 0 ->
  exists info,
    get_info (snd (clear w)) = (Ok info, snd (clear w))
    /\ info_bytes info = 0
    /\ info_items info = Z.of_nat (length (recentAccessed w))
    /\ info_hits info = hits w /\ info_misses info = misses w
    /\ hits (snd (clear w)) = hits w /\ misses (snd (clear w)) = misses w.
Proof.
  intros Hnz. rewrite get_info_eq. simpl.
  destruct (Z.eqb_spec (maxSize w) 0) as [?|_]; [done|].
  eexists. split; [reflexivity|]. simpl.
  unfold dir_size. by rewrite map_fold_empty.
Qed.

(** ** C9: key derivation *)

Lemma hexdigit_hexchar n : hexchar (hexdigit n).
Proof.
  unfold hexdigit, hexchar. generalize (N.to_nat n). intros k.
  do 16 (destruct k as [|k]; [simpl; tauto|]). simpl. tauto.
Qed.

Lemma hexdigest_hexname d : hexname (hexdigest d).
Proof.
  unfold hexname. induction d as [|b d IH]; simpl; [constructor|].
  constructor; [apply hexdigit_hexchar|].
  constructor; [apply hexdigit_hexchar|exact IH].
Qed.

Lemma hexdigest_length d :
  String.length (hexdigest d) = (2 * length d)%nat.
Proof. induction d as [|b d IH]; simpl; [done|]. rewrite IH. lia. Qed.

(** C9.  Two derivations of a key for the same callable name, in stores
    over the same directory, from argument tuples with the same pickled
    bytes give the same outcome; when the arguments pickle, that outcome is
    the path of the directory joined with a string of [2 * digest_size]
    hexadecimal digits, and deriving it changes nothing. *)
Theorem key_derivation_deterministic func func' args args' w w' :
  __name__ func = __name__ func' ->
  cacheDir w = cacheDir w' ->
  pickle_dumps (VTuple args) = pickle_dumps (VTuple args') ->
  key_of func args w = key_of func' args' w'
  /\ snd (__build_file_name func args w) = w
  /\ forall pickled, pickle_dumps (VTuple args) = Ok pickled ->
       exists digest,
         key_of func args w = Ok (os_path_join (cacheDir w) digest)
         /\ String.length digest = (2 * digest_size)%nat
         /\ hexname digest.
Proof.
  intros Hname Hdir Hargs. unfold key_of. rewrite !build_file_name_eq. simpl.
  rewrite Hname, Hdir, Hargs. split; [done|]. split; [done|].
  intros pickled Hp. rewrite Hp. eexists. split; [reflexivity|].
  split; [|apply hexdigest_hexname].
  by rewrite hexdigest_length, algorithm_length.
Qed.

(** ** C6: store, then look up *)

Lemma list_find_head node (recent : list string) :
  list_find (fun n => n = node) (node :: recent) = Some (0%nat, node).
Proof. simpl. by rewrite decide_True. Qed.

(** A store completes exactly when the directory is within the budget and
    the value pickles. *)
Lemma write_cache_completes w fileName v :
  (exists w1, __write_cache fileName v w = (Ok tt, w1))
  <-> dir_size (disk w) <= maxSize w /\ exists packed, pickle_dumps v = Ok packed.
Proof.
  rewrite write_cache_eq.
  destruct (Z.gtb_spec (dir_size (disk w)) (maxSize w)).
  - split; [by intros [? ?]|]. intros [? _]. lia.
  - destruct (pickle_dumps v) as [packed|e].
    + split; [|by eauto]. intros _. split; [lia|by eauto].
    + split; [by intros [? ?]|]. by intros [_ [? ?]].
Qed.

(** C6.  When a value has been stored under a file name (pickled,
    compressed and written to that file), reading that file name back
    (read, decompress, unpickle) returns the same value; and the store
    does complete for every value that pickles when the directory is
    within the budget. *)
Theorem store_lookup_roundtrip w fileName v :
  (forall w1,
     __write_cache fileName v w = (Ok tt, w1) ->
     exists w2, __read_cache fileName w1 = (Ok v, w2))
  /\ (dir_size (disk w) <= maxSize w ->
      (exists packed, pickle_dumps v = Ok packed) ->
      exists w1 w2,
        __write_cache fileName v w = (Ok tt, w1)
        /\ __read_cache fileName w1 = (Ok v, w2)).
Proof.
  assert (forall w1, __write_cache fileName v w = (Ok tt, w1) ->
                     exists w2, __read_cache fileName w1 = (Ok v, w2)) as Hback.
  { intros w1. rewrite write_cache_eq.
    destruct (dir_size (disk w) >? maxSize w)%Z; [done|].
    destruct (pickle_dumps v) as [packed|] eqn:Hpacked; [|done].
    intros [= <-]. rewrite read_cache_eq. simpl.
    rewrite lookup_insert_eq, zlib_decompress_compress.
    rewrite (pickle_loads_dumps _ _ Hpacked).
    rewrite shift_node_eq. simpl recentAccessed. rewrite list_find_head.
    eauto. }
  split; [exact Hback|]. intros Hfit Hpickles.
  destruct (proj2 (write_cache_completes w fileName v)) as [w1 Hw1]; [done|].
  destruct (Hback w1 Hw1) as [w2 Hw2]. eauto.
Qed.

(** ** C7: a corrupt entry *)

(** C7.  When the file of a call's key exists but its bytes do not
    decompress, or decompress to bytes that do not unpickle, the call
    raises the library's exception and leaves the world as it was: no
    value is returned, the wrapped function is not invoked and nothing is
    stored. *)
Theorem corrupt_entry_raises func args w fileName raw e :
  key_of func args w = Ok fileName ->
  disk w !! fileName = Some raw ->
  (zlib_decompress raw = Raise e
   \/ exists content,
        zlib_decompress raw = Ok content /\ pickle_loads content = Raise e) ->
  wrapper func args w = (Raise e, w)
  /\ invocations (snd (wrapper func args w)) = invocations w.
Proof.
  intros Hkey Hraw Hbad.
  assert (wrapper func args w = (Raise e, w)) as ->; [|done].
  rewrite wrapper_eq, Hkey. rewrite bool_decide_true by (rewrite Hraw; eauto).
  rewrite read_cache_eq, Hraw.
  destruct Hbad as [->|(content & -> & ->)]; done.
Qed.

(** ** C8: a hit on an entry the recency list does not track *)

(** C8.  When the file of a call's key exists and holds a valid entry, but
    its node is not in the recency list (as for every file found at
    construction), the call raises [ValueError] from [list.index]: no
    value is returned and the list is left as it was. *)
Theorem untracked_entry_hit_raises func args w fileName raw content v :
  key_of func args w = Ok fileName ->
  disk w !! fileName = Some raw ->
  zlib_decompress raw = Ok content ->
  pickle_loads content = Ok v ->
  node_of fileName ∉ recentAccessed w ->
  wrapper func args w = (Raise ValueError, w).
Proof.
  intros Hkey Hraw Hcontent Hv Hnode.
  rewrite wrapper_eq, Hkey. rewrite bool_decide_true by (rewrite Hraw; eauto).
  rewrite read_cache_eq, Hraw, Hcontent, Hv, shift_node_eq.
  assert (list_find (fun n => n = node_of fileName) (recentAccessed w) = None)
    as ->; [|done].
  apply list_find_None, Forall_forall. intros n Hn ->. done.
Qed.

(** ** C3: what the wrapped function receives on a miss *)

(** C3, as the code has it.  On a miss the wrapped function is invoked
    exactly once: with no argument when the argument tuple is empty, and
    otherwise with one positional argument, the argument tuple itself.
    What that invocation raises, the wrapper raises; what it returns, the
    wrapper returns, when the directory is within the budget and the
    result pickles. *)
Theorem miss_passes_argument_tuple func args w fileName :
  key_of func args w = Ok fileName ->
  disk w !! fileName = None ->
  passed args = match args with [] => [] | _ :: _ => [VTuple args] end
  /\ invocations (snd (wrapper func args w))
     = (invocations w ++ [(__name__ func, passed args)])%list
  /\ (forall e, body func (passed args) = Raise e ->
       fst (wrapper func args w) = Raise e)
  /\ (forall v packed,
       body func (passed args) = Ok v ->
       dir_size (disk w) <= maxSize w ->
       pickle_dumps v = Ok packed ->
       fst (wrapper func args w) = Ok v).
Proof.
  intros Hkey Hmiss. split; [by destruct args|].
  rewrite wrapper_eq, Hkey.
  rewrite bool_decide_false by (rewrite Hmiss; by intros [? ?]).
  cbv zeta.
  destruct (body func (passed args)) as [v|e].
  - rewrite write_cache_eq. simpl. split.
    + destruct (_ >? _)%Z; [done|]. by destruct (pickle_dumps v).
    + split; [done|]. intros ? packed [= <-] Hfit ->.
      by assert ((dir_size (disk w) >? maxSize w)%Z = false) as -> by lia.
  - split; [done|]. split; [by intros ? [= <-]|done].
Qed.

(** ** C5: the recency list *)

Lemma key_of_derived func args w fileName :
  key_of func args w = Ok fileName -> derived (cacheDir w) fileName.
Proof.
  unfold key_of. rewrite build_file_name_eq. simpl.
  destruct (pickle_dumps (VTuple args)) as [pickled|]; [|done].
  intros [= <-]. eexists. split; [reflexivity|].
  split; [apply hexdigest_hexname|].
  by rewrite hexdigest_length, algorithm_length.
Qed.

Lemma node_of_inj dir p q :
  derived dir p -> derived dir q -> node_of p = node_of q -> p = q.
Proof.
  intros (a & -> & Ha & Hla) (b & -> & Hb & Hlb) Hnode. f_equal.
  eapply os_path_relpath_join_inj; [done|done|congruence|exact Hnode].
Qed.

Lemma elem_of_live_nodes w node :
  node ∈ live_nodes w
  <-> exists fileName, is_Some (disk w !! fileName) /\ node = node_of fileName.
Proof.
  unfold live_nodes. rewrite list_elem_of_fmap. split.
  - intros (p & -> & Hp). exists p. split; [|done].
    apply list_elem_of_fmap in Hp as ([p' raw] & -> & Hp).
    apply elem_of_map_to_list in Hp. simpl. eauto.
  - intros (p & [raw Hp] & ->). exists p. split; [done|].
    apply list_elem_of_fmap. exists (p, raw). split; [done|].
    by apply elem_of_map_to_list.
Qed.

Lemma live_nodes_insert w fileName raw w' :
  disk w !! fileName = None ->
  disk w' = <[fileName := raw]> (disk w) ->
  live_nodes w' ≡ₚ node_of fileName :: live_nodes w.
Proof.
  intros Hnew Hdisk. unfold live_nodes. rewrite Hdisk.
  by rewrite map_to_list_insert.
Qed.

Lemma filter_absent (node : string) (l : list string) :
  node ∉ l -> filter (fun n => n <> node) l = l.
Proof.
  induction l as [|x l IH]; [done|]. intros Hx.
  apply not_elem_of_cons in Hx as [Hne Hl].
  rewrite filter_cons_True by done. by rewrite IH.
Qed.

Lemma delete_found (node : string) (l : list string) i :
  NoDup l -> l !! i = Some node ->
  delete i l = filter (fun n => n <> node) l.
Proof.
  intros Hnd. revert i. induction Hnd as [|x l Hx Hnd IH]; intros i; [done|].
  destruct i as [|i]; simpl.
  - intros [= ->]. rewrite filter_cons_False by (intros ?; done).
    by rewrite filter_absent.
  - intros Hi. rewrite filter_cons_True.
    + by rewrite <-(IH i Hi).
    + intros ->. apply Hx. by eapply list_elem_of_lookup_2.
Qed.

Lemma init_invariant dir limit eviction startEmpty found :
  startEmpty = true \/ found = ∅ ->
  recency_invariant (__init__ dir limit eviction startEmpty found).
Proof.
  intros Hempty.
  assert (disk (__init__ dir limit eviction startEmpty found) = ∅
          /\ recentAccessed (__init__ dir limit eviction startEmpty found) = [])
    as [Hdisk Hrecent].
  { destruct Hempty as [->| ->]; [done|]. by destruct startEmpty. }
  unfold recency_invariant, tracks_live_files, owned, live_nodes.
  rewrite Hdisk, Hrecent, map_to_list_empty. repeat split.
  - constructor.
  - done.
  - intros fileName [raw Hraw]. by rewrite lookup_empty in Hraw.
Qed.

Lemma read_cache_step fileName w :
  recency_invariant w ->
  recency_invariant (snd (__read_cache fileName w))
  /\ recentAccessed (snd (__read_cache fileName w)) =
     match fst (__read_cache fileName w) with
     | Ok _ => node_of fileName
                 :: filter (fun n => n <> node_of fileName) (recentAccessed w)
     | Raise _ => recentAccessed w
     end.
Proof.
  intros Hinv. rewrite read_cache_eq.
  destruct (disk w !! fileName) as [raw|]; [|done].
  destruct (zlib_decompress raw) as [content|]; [|done].
  destruct (pickle_loads content) as [v|]; [|done].
  rewrite shift_node_eq.
  destruct (list_find _ _) as [[index popped]|] eqn:Hfind; [|done].
  apply list_find_Some in Hfind as (Hindex & -> & _). simpl.
  destruct Hinv as [[Hnodup Hperm] Howned].
  pose proof (delete_Permutation _ _ _ Hindex) as Hmoved.
  split.
  - split; [split|done]; simpl.
    + by rewrite <-Hmoved.
    + unfold live_nodes in *. simpl. by rewrite <-Hmoved.
  - f_equal. by apply delete_found.
Qed.

Lemma write_cache_step fileName v w :
  recency_invariant w ->
  disk w !! fileName = None ->
  derived (cacheDir w) fileName ->
  (exists packed, pickle_dumps v = Ok packed) ->
  recency_invariant (snd (__write_cache fileName v w))
  /\ recentAccessed (snd (__write_cache fileName v w)) =
     match fst (__write_cache fileName v w) with
     | Ok _ => node_of fileName
                 :: filter (fun n => n <> node_of fileName) (recentAccessed w)
     | Raise _ => recentAccessed w
     end.
Proof.
  intros Hinv Hnew Hderived [packed Hpacked]. rewrite write_cache_eq, Hpacked.
  destruct (dir_size (disk w) >? maxSize w)%Z; [done|]. simpl.
  destruct Hinv as [[Hnodup Hperm] Howned].
  assert (node_of fileName ∉ recentAccessed w) as Hfresh.
  { rewrite Hperm. intros (p & Hp & Hnode)%elem_of_live_nodes.
    apply (node_of_inj (cacheDir w)) in Hnode; [|done|by apply Howned].
    subst p. rewrite Hnew in Hp. by destruct Hp. }
  split; [|by rewrite filter_absent].
  split; [split|]; simpl.
  - by constructor.
  - etrans; [|symmetry; by eapply live_nodes_insert].
    by constructor.
  - intros p [raw Hp]. simpl in Hp.
    destruct (decide (fileName = p)) as [<-|Hne]; [done|].
    rewrite lookup_insert_ne in Hp by done. apply Howned. eauto.
Qed.

Lemma call_step func args w :
  recency_invariant w ->
  pickles_results func ->
  recency_invariant (perform (Call func args) w)
  /\ moves_to_head (Call func args) w.
Proof.
  intros Hinv Hpickles. unfold moves_to_head, accessed, perform.
  rewrite wrapper_eq. destruct (key_of func args w) as [fileName|] eqn:Hkey;
    [|done].
  case_bool_decide as Hfile.
  - destruct (read_cache_step fileName w Hinv) as [Hinv' Hlist].
    split; [done|]. rewrite Hlist. by destruct (fst (__read_cache fileName w)).
  - cbv zeta. destruct (body func (passed args)) as [v|] eqn:Hbody; [|done].
    set (w1 := log_invocation (__name__ func, passed args) w).
    destruct (write_cache_step fileName v w1) as [Hinv' Hlist].
    + exact Hinv.
    + destruct (disk w !! fileName) eqn:Hlook; [|done].
      exfalso. apply Hfile. eauto.
    + exact (key_of_derived _ _ _ _ Hkey).
    + by eapply Hpickles.
    + destruct (__write_cache fileName v w1) as [[[]|e] w2]; simpl in *; done.
Qed.

Lemma perform_step o w :
  recency_invariant w ->
  stores_and_lookups o ->
  recency_invariant (perform o w) /\ moves_to_head o w.
Proof.
  intros Hinv Hop. destruct o as [func args| |m|].
  - by apply call_step.
  - done.
  - unfold moves_to_head. simpl.
    unfold set_maxSize, bind, modify. rewrite handle_cache_size_eq.
    by destruct (_ >? _)%Z.
  - unfold moves_to_head. simpl. rewrite get_info_eq.
    by destruct (maxSize w =? 0)%Z.
Qed.

Lemma run_invariant ops w :
  recency_invariant w ->
  Forall stores_and_lookups ops ->
  recency_invariant (run ops w).
Proof.
  intros Hinv Hops. revert w Hinv.
  induction Hops as [|o ops Ho Hops IH]; intros w Hinv; [done|].
  simpl. apply IH. by apply perform_step.
Qed.

Lemma run_last_accessed ops w before :
  recency_invariant w ->
  Forall stores_and_lookups ops ->
  (forall node, before = Some node -> head (recentAccessed w) = Some node) ->
  forall node,
    last_accessed ops w before = Some node ->
    head (recentAccessed (run ops w)) = Some node.
Proof.
  intros Hinv Hops. revert w before Hinv.
  induction Hops as [|o ops Ho Hops IH]; intros w before Hinv Hbefore node;
    [by apply Hbefore|].
  simpl. destruct (perform_step o w Hinv Ho) as [Hinv' Hmoved].
  apply IH; [done|]. intros node'. unfold moves_to_head in Hmoved.
  rewrite Hmoved. destruct (accessed o w) as [touched|].
  - by intros [= ->].
  - apply Hbefore.
Qed.

(** C5, as the code has it.  For a store constructed over an empty
    directory (or with [startEmpty]), after every sequence of wrapper
    calls whose results pickle, [set_maxSize] and [get_info] calls, the
    recency list has no duplicates and is a rearrangement of the nodes of
    the live cache files; its head is the node most recently read or
    written; and each further such operation moves the node it reads or
    writes to the head, keeping the others in order, or leaves the list
    alone when it reads and writes nothing. *)
Theorem recency_list_tracks_live_files
    dir limit eviction startEmpty found ops :
  startEmpty = true \/ found = ∅ ->
  Forall stores_and_lookups ops ->
  let w := run ops (__init__ dir limit eviction startEmpty found) in
  tracks_live_files w
  /\ (forall node,
       last_accessed ops (__init__ dir limit eviction startEmpty found) None
       = Some node ->
       head (recentAccessed w) = Some node)
  /\ (forall o, stores_and_lookups o -> moves_to_head o w).
Proof.
  intros Hempty Hops w.
  pose proof (init_invariant dir limit eviction _ _ Hempty) as Hinit.
  pose proof (run_invariant ops _ Hinit Hops) as Hinv. fold w in Hinv.
  split; [by destruct Hinv|]. split.
  - intros node. by apply run_last_accessed.
  - intros o Ho. by apply perform_step.
Qed.

End Properties.
(** * Runs on the small platform *)

Module Scenario.
Import Sample.

Lemma succ_first_pickles : pickles_results succ_first.
Proof.
  intros positional v. simpl.
  destruct positional as [|[| | |[|[|z| |] items]] [|]]; try discriminate.
  intros [= <-]. simpl.
  pose proof (Z.mod_pos_bound (z + 1) 256 eq_refl) as [Hlo Hhi].
  assert (((0 <=? (z + 1) mod 256) && ((z + 1) mod 256 <? 256))%Z = true)
    as -> by lia.
  destruct (Byte.of_N (Z.to_N ((z + 1) mod 256))) as [b|] eqn:Hb; [by eauto|].
  apply Byte.of_N_None_iff in Hb. lia.
Qed.

(** One miss and one hit: the second call is served from the file, the
    wrapped function ran once, and both counters are still zero. *)
Example one_miss_one_hit :
  let w := run [Call succ_first [VInt 1]; Call succ_first [VInt 1]] fresh in
  fst (wrapper succ_first [VInt 1] used) = Ok (VInt 2)
  /\ invocations w = [("succ_first", [VTuple [VInt 1]])]
  /\ hits w = 0 /\ misses w = 0.
Proof. vm_compute. repeat split. Qed.

(** C1 at one call and its repeat. *)
Lemma counters_stay_zero_witness :
  let w := run [Call succ_first [VInt 1]; Call succ_first [VInt 1]] fresh in
  hits w = 0 /\ misses w = 0
  /\ exists info, fst (get_info w) = Ok info
       /\ info_hits info = 0 /\ info_misses info = 0.
Proof.
  intros w.
  destruct (counters_stay_zero "cache" 1000000 1 false ∅ succ_first
              [[VInt 1]]) as (Hh & Hm & Hinfo).
  split; [exact Hh|]. split; [exact Hm|].
  eexists. split; [reflexivity|]. apply Hinfo. reflexivity.
Defined.

(** C2 at a store that is over its budget. *)
Lemma over_budget_store_raises_witness :
  dir_size (disk full) > maxSize full
  /\ __write_cache "cache/8b" (VInt 3) full
     = (Raise (AttributeError "_Cache__evict"), full).
Proof.
  split; [reflexivity|].
  apply (over_budget_store_raises full "cache/8b" (VInt 3)). reflexivity.
Defined.

(** The wrapper call that meets it: a second result cannot be stored. *)
Example second_store_raises :
  wrapper succ_first [VInt 2] full
  = (Raise (AttributeError "_Cache__evict"),
     log_invocation ("succ_first", [VTuple [VInt 2]]) full).
Proof. vm_compute. reflexivity. Qed.

(** C3 is false as stated: [add(1, 2)] through the wrapper invokes [add]
    with the single argument [(1, 2)], and raises where [add(1, 2)]
    returns 3. *)
Lemma arity_not_preserved :
  ~ preserves_arity add [VInt 1; VInt 2] fresh.
Proof.
  intros Hpreserved.
  destruct (Hpreserved "cache/80") as [Hcalls _]; [reflexivity|reflexivity|].
  vm_compute in Hcalls. discriminate Hcalls.
Qed.

(** C3 as amended, at a one-argument call. *)
Lemma miss_passes_argument_tuple_witness :
  key_of succ_first [VInt 1] fresh = Ok "cache/8a"
  /\ disk fresh !! "cache/8a" = None
  /\ invocations (snd (wrapper succ_first [VInt 1] fresh))
     = [("succ_first", [VTuple [VInt 1]])]
  /\ fst (wrapper succ_first [VInt 1] fresh) = Ok (VInt 2).
Proof.
  destruct (miss_passes_argument_tuple succ_first [VInt 1] fresh "cache/8a")
    as (_ & Hcalls & _ & Hreturns); [reflexivity|reflexivity|].
  split; [reflexivity|]. split; [reflexivity|]. split; [exact Hcalls|].
  apply (Hreturns (VInt 2) [x49; x02]); [reflexivity|vm_compute; discriminate|reflexivity].
Defined.

(** C4 at a store with one entry: after [clear] the item count is still
    one. *)
Lemma clear_then_get_info_witness :
  maxSize used <> 0
  /\ exists info,
       get_info (snd (clear used)) = (Ok info, snd (clear used))
       /\ info_bytes info = 0
       /\ info_items info = 1
       /\ info_hits info = 0 /\ info_misses info = 0.
Proof.
  split; [discriminate|].
  destruct (clear_then_get_info used) as (info & Hinfo & Hb & Hi & Hh & Hm & _);
    [discriminate|].
  exists info. repeat split; assumption.
Defined.

(** C5 is false as stated: a file found at construction is not in the
    list, and an entry stays in the list after [clear] removed its
    file. *)
Lemma recency_list_not_invariant :
  ~ tracks_live_files reopened
  /\ ~ tracks_live_files (run [Call succ_first [VInt 1]; Clear] fresh).
Proof.
  split; intros [_ Hperm]; apply Permutation_length in Hperm;
    vm_compute in Hperm; discriminate Hperm.
Qed.

(** C5 as amended, on a run with two misses, a hit and a new budget. *)
Lemma recency_list_tracks_live_files_witness :
  let ops := [Call succ_first [VInt 1]; Call succ_first [VInt 2];
              Call succ_first [VInt 1]; SetMaxSize 5; GetInfo] in
  let w := run ops fresh in
  recentAccessed w = ["8a"; "8b"]
  /\ tracks_live_files w
  /\ head (recentAccessed w) = Some "8a"
  /\ moves_to_head (Call succ_first [VInt 2]) w.
Proof.
  intros ops w.
  destruct (recency_list_tracks_live_files "cache" 1000000 1 false ∅ ops)
    as (Htracks & Hhead & Hmoves).
  - right. reflexivity.
  - repeat constructor; apply succ_first_pickles.
  - split; [reflexivity|]. split; [exact Htracks|].
    split; [apply Hhead; reflexivity|].
    apply Hmoves. apply succ_first_pickles.
Defined.

(** C6 at a fresh store. *)
Lemma store_lookup_roundtrip_witness :
  exists w1 w2,
    __write_cache "cache/8a" (VInt 2) fresh = (Ok tt, w1)
    /\ __read_cache "cache/8a" w1 = (Ok (VInt 2), w2).
Proof.
  exists (snd (__write_cache "cache/8a" (VInt 2) fresh)).
  destruct (proj1 (store_lookup_roundtrip fresh "cache/8a" (VInt 2))
              (snd (__write_cache "cache/8a" (VInt 2) fresh)))
    as [w2 Hread]; [reflexivity|].
  exists w2. split; [reflexivity|exact Hread].
Defined.

(** C7 at an entry overwritten with garbage. *)
Lemma corrupt_entry_raises_witness :
  key_of succ_first [VInt 1] corrupted = Ok "cache/8a"
  /\ disk corrupted !! "cache/8a" = Some [x00; x01]
  /\ node_of "cache/8a" ∈ recentAccessed corrupted
  /\ wrapper succ_first [VInt 1] corrupted = (Raise ZlibError, corrupted).
Proof.
  split; [reflexivity|]. split; [reflexivity|].
  split; [vm_compute; left|].
  apply (corrupt_entry_raises succ_first [VInt 1] corrupted "cache/8a"
           [x00; x01] ZlibError); [reflexivity|reflexivity|left; reflexivity].
Defined.

(** C8 at a store reopened over the directory of an earlier one. *)
Lemma untracked_entry_hit_raises_witness :
  disk reopened !! "cache/8a" = Some [x78; x49; x02]
  /\ recentAccessed reopened = []
  /\ wrapper succ_first [VInt 1] reopened = (Raise ValueError, reopened).
Proof.
  split; [reflexivity|]. split; [reflexivity|].
  apply (untracked_entry_hit_raises succ_first [VInt 1] reopened "cache/8a"
           [x78; x49; x02] [x49; x02] (VInt 2));
    [reflexivity|reflexivity|reflexivity|reflexivity|].
  vm_compute. apply not_elem_of_nil.
Defined.

(** C9 at two calls with the same name and arguments, in two stores over
    the same directory. *)
Lemma key_derivation_deterministic_witness :
  key_of succ_first [VInt 1] fresh = key_of succ_first [VInt 1] used
  /\ key_of succ_first [VInt 1] fresh = Ok "cache/8a".
Proof.
  destruct (key_derivation_deterministic succ_first succ_first
              [VInt 1] [VInt 1] fresh used) as (Hsame & _ & _);
    [reflexivity|reflexivity|reflexivity|].
  split; [exact Hsame|reflexivity].
Defined.

(** C10 at a zero budget and at the default one. *)
Lemma get_info_zero_budget_witness :
  get_info (__init__ "cache" 0 1 false ∅)
  = (Raise ZeroDivisionError, __init__ "cache" 0 1 false ∅)
  /\ exists info, get_info fresh = (Ok info, fresh).
Proof.
  destruct get_info_zero_budget as (Hzero & Hnonzero & _).
  split; [apply Hzero; reflexivity|apply Hnonzero; discriminate].
Defined.

End Scenario.

(** * Further behaviour of the cache *)

Section Behaviour.
Context {P : Platform}.

(** ** The size of the directory *)

Lemma dir_size_insert_new (d : gmap string (list byte)) fileName content :
  d !! fileName = None ->
  dir_size (<[fileName := content]> d)
  = dir_size d + Z.of_nat (length content).
Proof.
  intros Hnew. unfold dir_size.
  rewrite map_fold_insert_L; [done| |done]. intros. lia.
Qed.

Lemma dir_size_delete (d : gmap string (list byte)) fileName content :
  d !! fileName = Some content ->
  dir_size d = dir_size (delete fileName d) + Z.of_nat (length content).
Proof.
  intros Hold. unfold dir_size.
  rewrite (map_fold_delete_L _ _ fileName content d); [done| |done].
  intros. lia.
Qed.

Lemma dir_size_nonneg (d : gmap string (list byte)) : 0 <= dir_size d.
Proof.
  induction d as [|fileName content d Hnew _ IH] using map_first_key_ind.
  - unfold dir_size. by rewrite map_fold_empty.
  - rewrite dir_size_insert_new by done. lia.
Qed.

Lemma dir_size_insert_le (d : gmap string (list byte)) fileName content :
  dir_size (<[fileName := content]> d)
  <= dir_size d + Z.of_nat (length content).
Proof.
  destruct (d !! fileName) as [old|] eqn:Hold.
  - rewrite <-insert_delete_eq.
    rewrite dir_size_insert_new by apply lookup_delete_eq.
    rewrite (dir_size_delete d fileName old Hold). lia.
  - by rewrite dir_size_insert_new.
Qed.

(** X15.  [__get_cache_size] reads the directory without changing
    anything and returns the sum of the sizes of its files: never
    negative, zero for an empty directory, larger by the size of a file
    that is added and smaller by the size of a file that is removed. *)
Theorem get_cache_size_sums w :
  snd (__get_cache_size w) = w
  /\ exists total,
       fst (__get_cache_size w) = Ok total
       /\ 0 <= total
       /\ (disk w = ∅ -> total = 0)
       /\ (forall fileName content,
            disk w !! fileName = None ->
            fst (__get_cache_size
                   (set_disk (<[fileName := content]> (disk w)) w))
            = Ok (total + Z.of_nat (length content)))
       /\ (forall fileName content,
            disk w !! fileName = Some content ->
            fst (__get_cache_size (set_disk (delete fileName (disk w)) w))
            = Ok (total - Z.of_nat (length content))).
Proof.
  split; [done|]. exists (dir_size (disk w)). unfold __get_cache_size, gets.
  simpl. split; [done|]. split; [apply dir_size_nonneg|]. split.
  - intros ->. unfold dir_size. by rewrite map_fold_empty.
  - split.
    + intros fileName content Hnew. by rewrite dir_size_insert_new.
    + intros fileName content Hold.
      rewrite (dir_size_delete _ _ _ Hold). f_equal. lia.
Qed.

(** ** What a call leaves behind *)

(** The world after a miss whose result was stored. *)
Lemma wrapper_miss_completes func args w fileName v packed :
  key_of func args w = Ok fileName ->
  disk w !! fileName = None ->
  body func (passed args) = Ok v ->
  dir_size (disk w) <= maxSize w ->
  pickle_dumps v = Ok packed ->
  wrapper func args w =
    (Ok v,
     mkWorld (cacheDir w) (maxSize w) (evictionSize w)
       (node_of fileName :: recentAccessed w) (hits w) (misses w)
       (<[fileName := zlib_compress packed]> (disk w))
       (invocations w ++ [(__name__ func, passed args)])).
Proof.
  intros Hkey Hmiss Hbody Hfit Hpacked. rewrite wrapper_eq, Hkey.
  rewrite bool_decide_false by (rewrite Hmiss; by intros [? ?]).
  cbv zeta. rewrite Hbody, write_cache_eq. simpl. rewrite Hpacked.
  by assert ((dir_size (disk w) >? maxSize w)%Z = false) as -> by lia.
Qed.

Lemma key_of_name func func' args w w' :
  __name__ func' = __name__ func ->
  cacheDir w' = cacheDir w ->
  key_of func' args w' = key_of func args w.
Proof.
  intros Hname Hdir. unfold key_of. rewrite !build_file_name_eq. simpl.
  by rewrite Hname, Hdir.
Qed.

(** X1.  Once the result of a call has been stored, a call with the same
    arguments of any function that carries the same [__name__], the
    function itself included, returns the stored value: the function is
    not invoked and the directory is not touched. *)
Theorem hit_served_by_name func func' args w fileName v packed :
  key_of func args w = Ok fileName ->
  disk w !! fileName = None ->
  body func (passed args) = Ok v ->
  dir_size (disk w) <= maxSize w ->
  pickle_dumps v = Ok packed ->
  __name__ func' = __name__ func ->
  let w1 := snd (wrapper func args w) in
  fst (wrapper func' args w1) = Ok v
  /\ invocations (snd (wrapper func' args w1)) = invocations w1
  /\ disk (snd (wrapper func' args w1)) = disk w1.
Proof.
  intros Hkey Hmiss Hbody Hfit Hpacked Hname w1. subst w1.
  rewrite (wrapper_miss_completes _ _ _ _ _ _ Hkey Hmiss Hbody Hfit Hpacked).
  simpl. rewrite wrapper_eq.
  rewrite (key_of_name func func' args w) by done. rewrite Hkey. simpl.
  rewrite bool_decide_true by (rewrite lookup_insert_eq; eauto).
  rewrite read_cache_eq. simpl.
  rewrite lookup_insert_eq, zlib_decompress_compress.
  rewrite (pickle_loads_dumps _ _ Hpacked).
  rewrite shift_node_eq. simpl recentAccessed. rewrite list_find_head. done.
Qed.

(** X2.  When the file of a call's key exists, the call takes the read
    path whatever comes of it: the wrapped function is not invoked, no
    file is written or removed, the settings stay, and the recency list is
    at most rearranged. *)
Theorem hit_never_invokes_or_writes func args w fileName :
  key_of func args w = Ok fileName ->
  is_Some (disk w !! fileName) ->
  let w' := snd (wrapper func args w) in
  invocations w' = invocations w
  /\ disk w' = disk w
  /\ same_settings w w'
  /\ recentAccessed w' ≡ₚ recentAccessed w.
Proof.
  intros Hkey [raw Hraw] w'. subst w'. rewrite wrapper_eq, Hkey.
  rewrite bool_decide_true by (rewrite Hraw; eauto).
  rewrite read_cache_eq, Hraw. unfold same_settings.
  destruct (zlib_decompress raw) as [content|]; [|done].
  destruct (pickle_loads content) as [v|]; [|done].
  rewrite shift_node_eq.
  destruct (list_find _ _) as [[index popped]|] eqn:Hfind; [|done].
  apply list_find_Some in Hfind as (Hindex & _ & _). simpl.
  repeat split. symmetry. by apply delete_Permutation.
Qed.

(** X3.  When the argument tuple does not pickle, no key can be derived:
    the call raises the pickling exception and nothing else happens; the
    wrapped function is not invoked. *)
Theorem unpicklable_arguments_raise func args w e :
  pickle_dumps (VTuple args) = Raise e ->
  wrapper func args w = (Raise e, w).
Proof.
  intros Hargs. rewrite wrapper_eq. unfold key_of.
  rewrite build_file_name_eq, Hargs. done.
Qed.

(** X4.  An exception of the wrapped function is not cached: the call
    raises it, nothing is written and nothing is tracked, so a repeat of
    the call is a miss again and invokes the function again. *)
Theorem raising_function_not_cached func args w fileName e :
  key_of func args w = Ok fileName ->
  disk w !! fileName = None ->
  body func (passed args) = Raise e ->
  let call := (__name__ func, passed args) in
  wrapper func args w = (Raise e, log_invocation call w)
  /\ wrapper func args (log_invocation call w)
     = (Raise e, log_invocation call (log_invocation call w)).
Proof.
  intros Hkey Hmiss Hbody call.
  assert (forall w0, key_of func args w0 = Ok fileName ->
                     disk w0 !! fileName = None ->
                     wrapper func args w0 = (Raise e, log_invocation call w0))
    as Honce.
  { intros w0 Hkey0 Hmiss0. rewrite wrapper_eq, Hkey0.
    rewrite bool_decide_false by (rewrite Hmiss0; by intros [? ?]).
    cbv zeta. by rewrite Hbody. }
  split; [by apply Honce|]. apply Honce; [|done].
  by rewrite (key_of_name func func args w).
Qed.

(** X5.  When the result of a miss does not pickle while the directory is
    within the budget, the call raises the pickling exception after the
    file was opened for writing: an empty file is left under the key and
    the recency list is not extended.  A repeat of the call then finds
    that file, does not invoke the function again, and raises whatever
    decompressing no bytes raises. *)
Theorem unpicklable_result_leaves_empty_file func args w fileName v e :
  key_of func args w = Ok fileName ->
  disk w !! fileName = None ->
  body func (passed args) = Ok v ->
  dir_size (disk w) <= maxSize w ->
  pickle_dumps v = Raise e ->
  let w1 := snd (wrapper func args w) in
  fst (wrapper func args w) = Raise e
  /\ disk w1 = <[fileName := []]> (disk w)
  /\ recentAccessed w1 = recentAccessed w
  /\ forall e', zlib_decompress [] = Raise e' ->
       wrapper func args w1 = (Raise e', w1).
Proof.
  intros Hkey Hmiss Hbody Hfit Hpickle w1. subst w1.
  rewrite wrapper_eq, Hkey.
  rewrite bool_decide_false by (rewrite Hmiss; by intros [? ?]).
  cbv zeta. rewrite Hbody, write_cache_eq. simpl. rewrite Hpickle.
  assert ((dir_size (disk w) >? maxSize w)%Z = false) as -> by lia.
  simpl. repeat split. intros e' Hempty.
  rewrite wrapper_eq. rewrite (key_of_name func func args w) by done.
  rewrite Hkey. simpl.
  rewrite bool_decide_true by (rewrite lookup_insert_eq; eauto).
  rewrite read_cache_eq. simpl. by rewrite lookup_insert_eq, Hempty.
Qed.

(** ** Stores and the size of the directory *)

(** X6.  A store that completes leaves the compressed pickle of the value
    in the file of the key.  The directory was within the budget before,
    so afterwards it exceeds the budget by at most the size of that one
    entry; when the key had no file, it grows by exactly that size. *)
Theorem store_grows_directory fileName v w w1 :
  __write_cache fileName v w = (Ok tt, w1) ->
  exists packed,
    pickle_dumps v = Ok packed
    /\ disk w1 !! fileName = Some (zlib_compress packed)
    /\ dir_size (disk w1)
       <= maxSize w + Z.of_nat (length (zlib_compress packed))
    /\ (disk w !! fileName = None ->
        dir_size (disk w1)
        = dir_size (disk w) + Z.of_nat (length (zlib_compress packed))).
Proof.
  rewrite write_cache_eq.
  destruct (Z.gtb_spec (dir_size (disk w)) (maxSize w)) as [|Hfit]; [done|].
  destruct (pickle_dumps v) as [packed|]; [|done].
  intros [= <-]. exists packed. simpl. split; [done|].
  split; [apply lookup_insert_eq|]. split.
  - pose proof (dir_size_insert_le (disk w) fileName (zlib_compress packed)).
    lia.
  - intros Hnew. by apply dir_size_insert_new.
Qed.

(** What a call can do to the directory: nothing, or create the file of
    its key, which was missing, while the directory is within the budget. *)
Lemma wrapper_disk func args w :
  disk (snd (wrapper func args w)) = disk w
  \/ exists fileName content,
       key_of func args w = Ok fileName
       /\ disk w !! fileName = None
       /\ dir_size (disk w) <= maxSize w
       /\ disk (snd (wrapper func args w)) = <[fileName := content]> (disk w)
       /\ (content = []
           \/ exists v packed,
                body func (passed args) = Ok v
                /\ pickle_dumps v = Ok packed
                /\ content = zlib_compress packed).
Proof.
  rewrite wrapper_eq. destruct (key_of func args w) as [fileName|] eqn:Hkey;
    [|by left].
  case_bool_decide as Hfile.
  - left. apply read_cache_frame.
  - cbv zeta. destruct (body func (passed args)) as [v|] eqn:Hbody; [|by left].
    rewrite write_cache_eq. simpl.
    destruct (Z.gtb_spec (dir_size (disk w)) (maxSize w)) as [|Hfit];
      [by left|].
    assert (disk w !! fileName = None) as Hmiss.
    { destruct (disk w !! fileName) eqn:Hlook; [|done].
      exfalso. apply Hfile. eauto. }
    right. exists fileName.
    destruct (pickle_dumps v) as [packed|] eqn:Hpacked; simpl.
    + exists (zlib_compress packed). repeat split; try done.
      right. by exists v, packed.
    + exists []. repeat split; try done. by left.
Qed.

Lemma perform_keeps_budget o w :
  keeps_budget o -> maxSize (perform o w) = maxSize w.
Proof.
  destruct o as [func args| |m|]; simpl; try done; intros _.
  - apply wrapper_frame.
  - rewrite get_info_eq. by destruct (maxSize w =? 0)%Z.
Qed.

Lemma get_info_world w : snd (get_info w) = w.
Proof. rewrite get_info_eq. by destruct (maxSize w =? 0)%Z. Qed.

(** X7.  Once the directory is larger than the budget, calls and
    [get_info] never change it again and the budget stays as it is: the
    store remains over budget, and every further miss whose function
    returns raises [AttributeError] instead of storing. *)
Theorem over_budget_freezes_directory ops w :
  dir_size (disk w) > maxSize w ->
  Forall keeps_budget ops ->
  disk (run ops w) = disk w
  /\ maxSize (run ops w) = maxSize w
  /\ forall func args fileName v,
       key_of func args (run ops w) = Ok fileName ->
       disk w !! fileName = None ->
       body func (passed args) = Ok v ->
       fst (wrapper func args (run ops w))
       = Raise (AttributeError "_Cache__evict").
Proof.
  intros Hover Hops.
  assert (disk (run ops w) = disk w /\ maxSize (run ops w) = maxSize w)
    as [Hdisk Hmax].
  { revert w Hover. induction Hops as [|o ops Ho Hops IH]; intros w Hover;
      [done|].
    simpl.
    assert (disk (perform o w) = disk w) as Hd.
    { destruct o as [func args| |m|]; simpl; try done.
      - destruct (wrapper_disk func args w)
          as [Hsame|(? & ? & _ & _ & Hfit & _)]; [done|lia].
      - by rewrite get_info_world. }
    pose proof (perform_keeps_budget o w Ho) as Hm.
    destruct (IH (perform o w)) as [-> ->]; [by rewrite Hd, Hm|]. done. }
  split; [done|]. split; [done|].
  intros func args fileName v Hkey Hmiss Hbody.
  rewrite wrapper_eq, Hkey.
  rewrite bool_decide_false by (rewrite Hdisk, Hmiss; by intros [? ?]).
  cbv zeta. rewrite Hbody, write_cache_eq. simpl. rewrite Hdisk, Hmax.
  by assert ((dir_size (disk w) >? maxSize w)%Z = true) as -> by lia.
Qed.

(** X8.  With a fixed budget, the directory never exceeds the budget by
    more than one entry: if every stored entry takes at most [bound]
    bytes and the directory is at most [bound] over the budget, it still
    is after any run of calls, [clear] and [get_info]. *)
Theorem size_bound_best_effort bound ops w :
  0 <= bound ->
  0 <= maxSize w + bound ->
  dir_size (disk w) <= maxSize w + bound ->
  Forall (stores_within bound) ops ->
  dir_size (disk (run ops w)) <= maxSize w + bound
  /\ maxSize (run ops w) = maxSize w.
Proof.
  intros Hbound Hroom Hsize Hops. revert w Hroom Hsize.
  induction Hops as [|o ops Ho Hops IH]; intros w Hroom Hsize; [done|].
  simpl.
  assert (dir_size (disk (perform o w)) <= maxSize w + bound
          /\ maxSize (perform o w) = maxSize w) as [Hsize' Hmax'].
  { destruct o as [func args| |m|]; simpl in *.
    - split; [|apply wrapper_frame].
      destruct (wrapper_disk func args w)
        as [->|(fileName & content & _ & Hnew & Hfit & -> & Hcontent)];
        [done|].
      rewrite dir_size_insert_new by done.
      destruct Hcontent as [->|(v & packed & Hbody & Hpacked & ->)];
        [simpl; lia|].
      pose proof (Ho _ _ _ Hbody Hpacked). lia.
    - split; [|done]. unfold dir_size. by rewrite map_fold_empty.
    - done.
    - by rewrite get_info_world. }
  destruct (IH (perform o w)) as [Hfinal Hmax]; [by rewrite Hmax'..|].
  rewrite Hmax' in Hfinal, Hmax. done.
Qed.

Lemma perform_keeps_files o w :
  never_clears o ->
  (forall fileName raw,
     disk w !! fileName = Some raw ->
     disk (perform o w) !! fileName = Some raw)
  /\ dir_size (disk w) <= dir_size (disk (perform o w)).
Proof.
  intros Ho. destruct o as [func args| |m|]; simpl in *.
  - destruct (wrapper_disk func args w)
      as [->|(fileName & content & _ & Hnew & _ & -> & _)]; [done|].
    split.
    + intros p raw Hp. rewrite lookup_insert_ne; [done|]. congruence.
    + rewrite dir_size_insert_new by done. lia.
  - done.
  - unfold set_maxSize, bind, modify. rewrite handle_cache_size_eq. simpl.
    by destruct (_ >? _)%Z.
  - by rewrite get_info_world.
Qed.

Lemma run_keeps_files ops w :
  Forall never_clears ops ->
  (forall fileName raw,
     disk w !! fileName = Some raw ->
     disk (run ops w) !! fileName = Some raw)
  /\ dir_size (disk w) <= dir_size (disk (run ops w)).
Proof.
  intros Hops. revert w. induction Hops as [|o ops Ho Hops IH]; intros w;
    [done|].
  simpl. destruct (IH (perform o w)) as [Hkept Hgrown].
  destruct (perform_keeps_files o w Ho) as [Hkept1 Hgrown1].
  split; [|lia]. intros fileName raw Hraw. by apply Hkept, Hkept1.
Qed.

(** X9.  Without [clear], no file of the directory is ever removed or
    rewritten and the directory never shrinks: calls write only files that
    do not exist yet, and nothing evicts. *)
Theorem no_entry_ever_removed ops w :
  Forall never_clears ops ->
  (forall fileName raw,
     disk w !! fileName = Some raw ->
     disk (run ops w) !! fileName = Some raw)
  /\ dir_size (disk w) <= dir_size (disk (run ops w)).
Proof. apply run_keeps_files. Qed.

(** ** The recency list *)

Lemma list_find_split (node : string) (l : list string) i x :
  list_find (fun n => n = node) l = Some (i, x) ->
  exists before after,
    l = (before ++ node :: after)%list /\ (node ∉ before) /\ x = node
    /\ delete i l = (before ++ after)%list.
Proof.
  revert i. induction l as [|a l IH]; intros i; simpl; [done|].
  destruct (decide (a = node)) as [->|Hne].
  - intros [= <- <-]. exists [], l. repeat split. apply not_elem_of_nil.
  - destruct (list_find _ l) as [[j y]|]; simpl; [|done].
    intros [= <- <-].
    destruct (IH j eq_refl) as (before & after & -> & Hfresh & -> & Hdel).
    exists (a :: before), after. simpl. rewrite Hdel. repeat split.
    apply not_elem_of_cons. split; [congruence|done].
Qed.

(** X10.  [__shift_node] on a node of the list takes out its first
    occurrence and puts it in front, leaving the order of the others; on a
    node that is not in the list it raises [ValueError] and changes
    nothing. *)
Theorem shift_node_moves_to_front node w :
  (node ∈ recentAccessed w ->
   exists before after,
     recentAccessed w = (before ++ node :: after)%list
     /\ (node ∉ before)
     /\ __shift_node node w
        = (Ok tt, set_recentAccessed (node :: before ++ after) w))
  /\ (node ∉ recentAccessed w -> __shift_node node w = (Raise ValueError, w)).
Proof.
  rewrite shift_node_eq. split.
  - intros Hin.
    destruct (list_find_elem_of (fun n => n = node) _ node Hin eq_refl)
      as [[i x] Hfind].
    rewrite Hfind. apply list_find_split in Hfind
      as (before & after & Hl & Hfresh & -> & ->).
    by exists before, after.
  - intros Hout.
    assert (list_find (fun n => n = node) (recentAccessed w) = None) as ->;
      [|done].
    apply list_find_None, Forall_forall. by intros n Hn ->.
Qed.

Lemma perform_keeps_tracked o w node :
  node ∈ recentAccessed w -> node ∈ recentAccessed (perform o w).
Proof.
  intros Hin. destruct o as [func args| |m|]; simpl.
  - rewrite wrapper_eq.
    destruct (key_of func args w) as [fileName|]; [|done].
    case_bool_decide.
    + rewrite read_cache_eq.
      destruct (disk w !! fileName) as [raw|]; [|done].
      destruct (zlib_decompress raw) as [content|]; [|done].
      destruct (pickle_loads content) as [v|]; [|done].
      rewrite shift_node_eq.
      destruct (list_find _ _) as [[i x]|] eqn:Hfind; [|done].
      apply list_find_Some in Hfind as (Hi & _ & _). simpl.
      by rewrite <-(delete_Permutation _ _ _ Hi).
    + cbv zeta. destruct (body func (passed args)) as [v|]; [|done].
      rewrite write_cache_eq. simpl.
      destruct (_ >? _)%Z; [done|].
      destruct (pickle_dumps v); [|done]. simpl. by apply list_elem_of_further.
  - done.
  - unfold set_maxSize, bind, modify. rewrite handle_cache_size_eq. simpl.
    by destruct (_ >? _)%Z.
  - by rewrite get_info_world.
Qed.

Lemma perform_cacheDir o w : cacheDir (perform o w) = cacheDir w.
Proof.
  destruct o as [func args| |m|]; simpl.
  - apply wrapper_frame.
  - done.
  - unfold set_maxSize, bind, modify. rewrite handle_cache_size_eq. simpl.
    by destruct (_ >? _)%Z.
  - by rewrite get_info_world.
Qed.

Lemma run_keeps_tracked ops w node :
  node ∈ recentAccessed w -> node ∈ recentAccessed (run ops w).
Proof.
  revert w. induction ops as [|o ops IH]; intros w Hin; [done|].
  simpl. by apply IH, perform_keeps_tracked.
Qed.

Lemma run_cacheDir ops w : cacheDir (run ops w) = cacheDir w.
Proof.
  revert w. induction ops as [|o ops IH]; intros w; [done|].
  simpl. by rewrite IH, perform_cacheDir.
Qed.

(** X11.  A stored result stays available: after the miss that stored it
    and any further operations other than [clear], the same call returns
    the stored value without invoking the wrapped function. *)
Theorem cached_result_persists func args w fileName v packed ops :
  key_of func args w = Ok fileName ->
  disk w !! fileName = None ->
  body func (passed args) = Ok v ->
  dir_size (disk w) <= maxSize w ->
  pickle_dumps v = Ok packed ->
  Forall never_clears ops ->
  let w2 := run ops (snd (wrapper func args w)) in
  fst (wrapper func args w2) = Ok v
  /\ invocations (snd (wrapper func args w2)) = invocations w2.
Proof.
  intros Hkey Hmiss Hbody Hfit Hpacked Hops.
  rewrite (wrapper_miss_completes _ _ _ _ _ _ Hkey Hmiss Hbody Hfit Hpacked).
  cbv zeta. simpl snd. set (w1 := mkWorld _ _ _ _ _ _ _ _).
  set (w2 := run ops w1).
  assert (disk w2 !! fileName = Some (zlib_compress packed)) as Hfile.
  { apply (run_keeps_files ops w1 Hops). apply lookup_insert_eq. }
  assert (node_of fileName ∈ recentAccessed w2) as Htracked.
  { apply run_keeps_tracked. left. }
  assert (key_of func args w2 = Ok fileName) as Hkey2.
  { rewrite <-Hkey. apply key_of_name; [done|]. unfold w2.
    by rewrite run_cacheDir. }
  rewrite wrapper_eq, Hkey2.
  rewrite bool_decide_true by (rewrite Hfile; eauto).
  rewrite read_cache_eq, Hfile, zlib_decompress_compress.
  rewrite (pickle_loads_dumps _ _ Hpacked), shift_node_eq.
  destruct (list_find_elem_of (fun n => n = node_of fileName) _ _
              Htracked eq_refl) as [[i x] ->].
  done.
Qed.

(** ** The budget and [clear] *)

(** X12.  [set_maxSize] assigns the budget before it checks the size: the
    new budget is in place whatever the outcome, no file and no entry of
    the recency list is touched, and the call raises [AttributeError]
    exactly when the directory is larger than the new budget. *)
Theorem set_maxSize_sets_budget_first m w :
  maxSize (snd (set_maxSize m w)) = m
  /\ disk (snd (set_maxSize m w)) = disk w
  /\ recentAccessed (snd (set_maxSize m w)) = recentAccessed w
  /\ (dir_size (disk w) <= m <-> fst (set_maxSize m w) = Ok tt)
  /\ (dir_size (disk w) > m
      <-> fst (set_maxSize m w) = Raise (AttributeError "_Cache__evict")).
Proof.
  unfold set_maxSize, bind, modify. rewrite handle_cache_size_eq. simpl.
  destruct (Z.gtb_spec (dir_size (disk w)) m); simpl;
    repeat split; try done; try lia.
Qed.

(** X13.  After [clear] the directory is empty, so every call whose
    arguments pickle is a miss and invokes the wrapped function once. *)
Theorem clear_forces_miss func args w fileName :
  key_of func args w = Ok fileName ->
  disk (snd (clear w)) = ∅
  /\ invocations (snd (wrapper func args (snd (clear w))))
     = (invocations w ++ [(__name__ func, passed args)])%list.
Proof.
  intros Hkey. split; [done|]. rewrite wrapper_eq.
  rewrite (key_of_name func func args w) by done. rewrite Hkey. simpl.
  rewrite bool_decide_false by (rewrite lookup_empty; by intros [? ?]).
  destruct (body func (passed args)) as [v|]; [|done].
  rewrite write_cache_eq. simpl.
  destruct (_ >? _)%Z; [done|]. by destruct (pickle_dumps v).
Qed.

(** X14.  Storing again what was tracked before a [clear] puts its node in
    the recency list a second time: the list then has duplicates and is
    longer than the directory has files. *)
Theorem restore_after_clear_duplicates func args w fileName v packed :
  key_of func args w = Ok fileName ->
  node_of fileName ∈ recentAccessed w ->
  body func (passed args) = Ok v ->
  0 <= maxSize w ->
  pickle_dumps v = Ok packed ->
  let w2 := snd (wrapper func args (snd (clear w))) in
  fst (wrapper func args (snd (clear w))) = Ok v
  /\ ~ NoDup (recentAccessed w2)
  /\ length (recentAccessed w2) = S (length (recentAccessed w))
  /\ size (disk w2) = 1%nat.
Proof.
  intros Hkey Htracked Hbody Hbudget Hpacked.
  rewrite (wrapper_miss_completes func args (snd (clear w)) fileName v packed).
  - simpl. repeat split.
    + intros Hnodup. apply NoDup_cons in Hnodup as [Hfresh _]. done.
    + rewrite map_size_insert_None by apply lookup_empty.
      by rewrite map_size_empty.
  - by rewrite (key_of_name func func args w).
  - apply lookup_empty.
  - done.
  - simpl. unfold dir_size. by rewrite map_fold_empty.
  - done.
Qed.

End Behaviour.

(** * Further runs on the small platform *)

Module Cases.
Import Sample MoreSamples.

Lemma succ_first_entries : entries_within 3 succ_first.
Proof.
  intros positional v packed. simpl.
  destruct positional as [|[| | |[|[|z| |] items]] [|]]; try discriminate.
  intros [= <-]. simpl.
  destruct ((0 <=? (z + 1) mod 256) && ((z + 1) mod 256 <? 256))%Z;
    [|discriminate].
  destruct (Byte.of_N (Z.to_N ((z + 1) mod 256))); [|discriminate].
  intros [= <-]. simpl. lia.
Qed.

(** X1 with a different function of the same name. *)
Lemma hit_served_by_name_witness :
  fst (wrapper impostor [VInt 1] used) = Ok (VInt 2)
  /\ invocations (snd (wrapper impostor [VInt 1] used))
     = [("succ_first", [VTuple [VInt 1]])]
  /\ body impostor [VTuple [VInt 1]] = Ok (VInt 0).
Proof.
  destruct (hit_served_by_name succ_first impostor [VInt 1] fresh "cache/8a"
              (VInt 2) [x49; x02]) as (Hvalue & Hcalls & _);
    [reflexivity|reflexivity|reflexivity|vm_compute; discriminate
    |reflexivity|reflexivity|].
  split; [exact Hvalue|]. split; [exact Hcalls|reflexivity].
Defined.

(** X2 at a hit on a corrupt entry. *)
Lemma hit_never_invokes_or_writes_witness :
  invocations (snd (wrapper succ_first [VInt 1] corrupted))
  = invocations corrupted
  /\ disk (snd (wrapper succ_first [VInt 1] corrupted)) = disk corrupted.
Proof.
  destruct (hit_never_invokes_or_writes succ_first [VInt 1] corrupted
              "cache/8a") as (Hcalls & Hdisk & _);
    [reflexivity|by eexists|].
  split; [exact Hcalls|exact Hdisk].
Defined.

(** X3 at an argument the small platform does not pickle. *)
Lemma unpicklable_arguments_raise_witness :
  wrapper succ_first [VInt 1000] fresh = (Raise PicklingError, fresh).
Proof.
  apply (unpicklable_arguments_raise succ_first [VInt 1000] fresh
           PicklingError). reflexivity.
Defined.

(** X4 at a function that always raises. *)
Lemma raising_function_not_cached_witness :
  fst (wrapper failing [VInt 1] fresh) = Raise (LibraryError "RuntimeError")
  /\ invocations
       (run [Call failing [VInt 1]; Call failing [VInt 1]] fresh)
     = [("failing", [VTuple [VInt 1]]); ("failing", [VTuple [VInt 1]])].
Proof.
  destruct (raising_function_not_cached failing [VInt 1] fresh "cache/2f"
              (LibraryError "RuntimeError")) as [Hfirst Hsecond];
    [reflexivity|reflexivity|reflexivity|].
  split; [by rewrite Hfirst|].
  change (run [Call failing [VInt 1]; Call failing [VInt 1]] fresh)
    with (snd (wrapper failing [VInt 1]
                 (snd (wrapper failing [VInt 1] fresh)))).
  rewrite Hfirst. cbn [snd]. rewrite Hsecond. reflexivity.
Defined.

(** X5 at a result the small platform does not pickle. *)
Lemma unpicklable_result_leaves_empty_file_witness :
  let w1 := snd (wrapper thousand [VInt 1] fresh) in
  fst (wrapper thousand [VInt 1] fresh) = Raise PicklingError
  /\ disk w1 !! "cache/bb" = Some []
  /\ wrapper thousand [VInt 1] w1 = (Raise ZlibError, w1).
Proof.
  intros w1.
  destruct (unpicklable_result_leaves_empty_file thousand [VInt 1] fresh
              "cache/bb" (VInt 1000) PicklingError)
    as (Hraise & Hdisk & _ & Hagain);
    [reflexivity|reflexivity|reflexivity|vm_compute; discriminate
    |reflexivity|].
  split; [exact Hraise|]. split; [reflexivity|]. by apply Hagain.
Defined.

(** X6 at the first store of a fresh cache. *)
Lemma store_grows_directory_witness :
  exists w1,
    __write_cache "cache/8a" (VInt 2) fresh = (Ok tt, w1)
    /\ disk w1 !! "cache/8a" = Some [x78; x49; x02]
    /\ dir_size (disk w1) = 3.
Proof.
  exists (snd (__write_cache "cache/8a" (VInt 2) fresh)).
  destruct (store_grows_directory "cache/8a" (VInt 2) fresh
              (snd (__write_cache "cache/8a" (VInt 2) fresh)))
    as (packed & Hpacked & Hfile & _ & Hsize); [reflexivity|].
  split; [reflexivity|]. split; [reflexivity|]. reflexivity.
Defined.

(** X7 at a store of budget 2 that holds three bytes. *)
Lemma over_budget_freezes_directory_witness :
  let ops := [Call succ_first [VInt 2]; GetInfo; Call succ_first [VInt 1]] in
  dir_size (disk full) > maxSize full
  /\ disk (run ops full) = disk full
  /\ fst (wrapper succ_first [VInt 3] (run ops full))
     = Raise (AttributeError "_Cache__evict").
Proof.
  intros ops.
  destruct (over_budget_freezes_directory ops full) as (Hdisk & _ & Hraise);
    [reflexivity|repeat constructor|].
  split; [reflexivity|]. split; [exact Hdisk|].
  apply (Hraise succ_first [VInt 3] "cache/8c" (VInt 4)); reflexivity.
Defined.

(** X8 at a budget of 2 bytes and entries of 3 bytes. *)
Lemma size_bound_best_effort_witness :
  let ops := [Call succ_first [VInt 1]; Call succ_first [VInt 2]; GetInfo;
              Clear; Call succ_first [VInt 3]] in
  dir_size (disk (run ops (__init__ "cache" 2 1 false ∅))) <= 2 + 3.
Proof.
  intros ops.
  destruct (size_bound_best_effort 3 ops (__init__ "cache" 2 1 false ∅))
    as [Hsize _];
    [discriminate|discriminate|discriminate| |exact Hsize].
  repeat constructor; apply succ_first_entries.
Defined.

(** X9 at a store with one entry. *)
Lemma no_entry_ever_removed_witness :
  let ops := [Call succ_first [VInt 2]; SetMaxSize 1;
              Call succ_first [VInt 3]] in
  disk (run ops used) !! "cache/8a" = Some [x78; x49; x02]
  /\ dir_size (disk used) <= dir_size (disk (run ops used)).
Proof.
  intros ops.
  destruct (no_entry_ever_removed ops used) as [Hkept Hgrown];
    [repeat constructor|].
  split; [apply Hkept; reflexivity|exact Hgrown].
Defined.

(** X10 at a list of two nodes. *)
Lemma shift_node_moves_to_front_witness :
  recentAccessed two_entries = ["8b"; "8a"]
  /\ (exists before after,
       recentAccessed two_entries = (before ++ "8a" :: after)%list
       /\ ("8a" ∉ before)
       /\ __shift_node "8a" two_entries
          = (Ok tt, set_recentAccessed ("8a" :: before ++ after) two_entries))
  /\ __shift_node "zz" two_entries = (Raise ValueError, two_entries).
Proof.
  destruct (shift_node_moves_to_front "8a" two_entries) as [Hin _].
  destruct (shift_node_moves_to_front "zz" two_entries) as [_ Hout].
  split; [reflexivity|]. split.
  - apply Hin. vm_compute. right. left.
  - apply Hout. vm_compute. intros Hzz.
    apply list_elem_of_In in Hzz. simpl in Hzz.
    destruct Hzz as [|[|[]]]; discriminate.
Defined.

(** X11 over a run that stores another entry and lowers the budget. *)
Lemma cached_result_persists_witness :
  let ops := [Call succ_first [VInt 2]; SetMaxSize 0; GetInfo] in
  let w2 := run ops used in
  fst (wrapper succ_first [VInt 1] w2) = Ok (VInt 2)
  /\ invocations (snd (wrapper succ_first [VInt 1] w2)) = invocations w2.
Proof.
  intros ops.
  apply (cached_result_persists succ_first [VInt 1] fresh "cache/8a"
           (VInt 2) [x49; x02] ops);
    [reflexivity|reflexivity|reflexivity|vm_compute; discriminate
    |reflexivity|repeat constructor].
Defined.

(** X12 at a budget below and a budget above the size of the directory. *)
Lemma set_maxSize_sets_budget_first_witness :
  set_maxSize 2 used
  = (Raise (AttributeError "_Cache__evict"), set_maxSize_field 2 used)
  /\ fst (set_maxSize 3 used) = Ok tt.
Proof.
  destruct (set_maxSize_sets_budget_first 3 used) as (_ & _ & _ & [Hfit _] & _).
  split; [reflexivity|]. apply Hfit. vm_compute. discriminate.
Defined.

(** X13 at a store with one entry. *)
Lemma clear_forces_miss_witness :
  invocations (snd (wrapper succ_first [VInt 1] (snd (clear used))))
  = [("succ_first", [VTuple [VInt 1]]); ("succ_first", [VTuple [VInt 1]])].
Proof.
  destruct (clear_forces_miss succ_first [VInt 1] used "cache/8a")
    as [_ Hcalls]; [reflexivity|].
  exact Hcalls.
Defined.

(** X15 at a store with one entry of three bytes. *)
Lemma get_cache_size_sums_witness :
  fst (__get_cache_size used) = Ok 3
  /\ fst (__get_cache_size
            (set_disk (<["cache/00" := [x00; x01]]> (disk used)) used))
     = Ok 5.
Proof.
  destruct (get_cache_size_sums used)
    as (_ & total & Htotal & _ & _ & Hadd & _).
  vm_compute in Htotal. injection Htotal as <-.
  split; [reflexivity|]. apply (Hadd "cache/00" [x00; x01]). reflexivity.
Defined.

(** X14 at a store with one entry. *)
Lemma restore_after_clear_duplicates_witness :
  let w2 := snd (wrapper succ_first [VInt 1] (snd (clear used))) in
  recentAccessed w2 = ["8a"; "8a"] /\ size (disk w2) = 1%nat.
Proof.
  intros w2.
  destruct (restore_after_clear_duplicates succ_first [VInt 1] used
              "cache/8a" (VInt 2) [x49; x02]) as (_ & _ & _ & Hfiles);
    [reflexivity|vm_compute; left|reflexivity|discriminate|reflexivity|].
  split; [reflexivity|exact Hfiles].
Defined.

End Cases.
